(** * A shallow embedding of Breakpad's BasicSourceLineResolver

    The repository ships the unit test of the resolver
    (src/processor/basic_source_line_resolver_unittest.cc) but not the
    resolver itself, so the symbol-file parsers, the module builder, the
    module store, the address queries and the two unwind evaluators below are
    modelled from the specification of the resolver.  Where the specification
    and the assertions of the unit test disagree, the test (which exercises
    the real code) decides, and the doc comment says so.

    The helpers of the unit test itself, and the Mach-O symbol dumper
    dump_syms_tool.cc (src/unnamed/part_000), are embedded from their
    source. *)

From Stdlib Require Import ZArith String Ascii List Bool Lia.
From Stdlib Require Import Sorting.Sorted Sorting.Permutation.
Import ListNotations.
Open Scope string_scope.
Open Scope Z_scope.

(** ** Tokenizer *)

Definition is_space (c : ascii) : bool :=
  match nat_of_ascii c with
  | 32 | 9 | 10 | 13 => true
  | _ => false
  end%nat.

Fixpoint skip_spaces (s : string) : string :=
  match s with
  | EmptyString => EmptyString
  | String c r => if is_space c then skip_spaces r else s
  end.

(** The longest prefix of [s] without white space, and what follows it. *)
Fixpoint take_word (s : string) : string * string :=
  match s with
  | EmptyString => (EmptyString, EmptyString)
  | String c r =>
      if is_space c then (EmptyString, s)
      else let '(w, rest) := take_word r in (String c w, rest)
  end.

(** Modelled from the spec: [split_tokens n s]: the first [n] white-space separated tokens of [s] and
    the rest of the line after them, leading spaces removed; [None] when the
    line has fewer than [n] tokens. *)
Fixpoint split_tokens (n : nat) (s : string) : option (list string * string) :=
  match n with
  | O => Some ([], skip_spaces s)
  | S n' =>
      let '(w, rest) := take_word (skip_spaces s) in
      match w with
      | EmptyString => None
      | _ =>
          match split_tokens n' rest with
          | Some (ws, r) => Some (w :: ws, r)
          | None => None
          end
      end
  end.

(** All tokens of a line. *)
Definition flush (cur : list ascii) (l : list string) : list string :=
  match cur with
  | [] => l
  | _ => string_of_list_ascii (rev cur) :: l
  end.

Fixpoint words_aux (s : string) (cur : list ascii) : list string :=
  match s with
  | EmptyString => flush cur []
  | String c r =>
      if is_space c then flush cur (words_aux r []) else words_aux r (c :: cur)
  end.

(** Modelled from the spec: all white-space separated tokens of a line. *)
Definition words (s : string) : list string := words_aux s [].

(** A trailing name field: runs to the end of the line, trailing spaces
    trimmed. *)
Fixpoint drop_spaces_l (l : list ascii) : list ascii :=
  match l with
  | [] => []
  | c :: r => if is_space c then drop_spaces_l r else l
  end.

Definition trim_end (s : string) : string :=
  string_of_list_ascii (rev (drop_spaces_l (rev (list_ascii_of_string s)))).

Fixpoint strip_prefix (p s : string) : option string :=
  match p, s with
  | EmptyString, _ => Some s
  | String a p', String b s' => if Ascii.eqb a b then strip_prefix p' s' else None
  | String _ _, EmptyString => None
  end.

(** ** Strict numeric parsers *)

Definition dec_digit (c : ascii) : option Z :=
  let n := nat_of_ascii c in
  if (48 <=? n)%nat && (n <=? 57)%nat then Some (Z.of_nat n - 48) else None.

Definition hex_digit (c : ascii) : option Z :=
  let n := nat_of_ascii c in
  if (48 <=? n)%nat && (n <=? 57)%nat then Some (Z.of_nat n - 48)
  else if (97 <=? n)%nat && (n <=? 102)%nat then Some (Z.of_nat n - 87)
  else if (65 <=? n)%nat && (n <=? 70)%nat then Some (Z.of_nat n - 55)
  else None.

Fixpoint digits_value (base : Z) (digit : ascii -> option Z) (s : string)
    (acc : Z) : option Z :=
  match s with
  | EmptyString => Some acc
  | String c r =>
      match digit c with
      | Some d => digits_value base digit r (acc * base + d)
      | None => None
      end
  end.

(** Modelled from the spec: Unsigned 64-bit hexadecimal, no [0x] prefix. *)
Definition parse_hex (s : string) : option Z :=
  match s with
  | EmptyString => None
  | _ =>
      match digits_value 16 hex_digit s 0 with
      | Some v => if v <? 2 ^ 64 then Some v else None
      | None => None
      end
  end.

Definition long_min : Z := - 2 ^ 63.
Definition long_max : Z := 2 ^ 63 - 1.

(** Modelled from the spec: Signed decimal in the range of a 64-bit [long]. *)
Definition parse_dec (s : string) : option Z :=
  let v :=
    match s with
    | EmptyString => None
    | String "-" EmptyString => None
    | String "-" r => option_map Z.opp (digits_value 10 dec_digit r 0)
    | _ => digits_value 10 dec_digit s 0
    end in
  match v with
  | Some x => if (long_min <=? x) && (x <=? long_max) then Some x else None
  | None => None
  end.

(** Modelled from the spec: A decimal field that must be non-negative (ids, line numbers, levels). *)
Definition parse_dec_nonneg (s : string) : option Z :=
  match parse_dec s with
  | Some x => if 0 <=? x then Some x else None
  | None => None
  end.

(** Modelled from the spec: A hexadecimal parameter size: the unit test reads [FUNC a1 a2 a3 ...]
    with parameter size [0xa3] and [PUBLIC a1 a2 ...] with [0xa2], so the
    parameter size is hexadecimal, and [-5] is refused.  It is stored in a
    signed [long] (the test's [long stack_param_size]) and is non-negative,
    so a value above [long_max] is refused as out of range. *)
Definition parse_param_size (s : string) : option Z :=
  match parse_hex s with
  | Some v => if v <=? long_max then Some v else None
  | None => None
  end.

(** ** Records *)

Record Function := mkFunction {
  func_name : string;
  func_address : Z;
  func_size : Z;
  func_param_size : Z;
  func_multiple : bool
}.

Record Line := mkLine {
  line_address : Z;
  line_size : Z;
  line_number : Z;
  line_file : Z
}.

Record PublicSymbol := mkPublic {
  pub_name : string;
  pub_address : Z;
  pub_param_size : Z;
  pub_multiple : bool
}.

Record InlineOrigin := mkOrigin {
  origin_has_file_id : bool;
  origin_id : Z;
  origin_file_id : Z;
  origin_name : string
}.

Record Inline := mkInline {
  inl_has_call_site_file_id : bool;
  inl_nest_level : Z;
  inl_call_site_line : Z;
  inl_call_site_file_id : Z;
  inl_origin_id : Z;
  inl_ranges : list (Z * Z)
}.

(** ** Record parsers (SymbolParseHelper) *)

Definition nonempty (s : string) : bool :=
  match s with EmptyString => false | _ => true end.

(** Modelled from the spec: [FILE <id> <name>] *)
Definition ParseFile (l : string) : option (Z * string) :=
  match strip_prefix "FILE " l with
  | None => None
  | Some r =>
      match split_tokens 1 r with
      | Some ([id], rest) =>
          let name := trim_end rest in
          match parse_dec_nonneg id with
          | Some i => if nonempty name then Some (i, name) else None
          | None => None
          end
      | _ => None
      end
  end.

(** The optional [m] marker of FUNC and PUBLIC. *)
Definition take_multiple (r : string) : bool * string :=
  match split_tokens 1 r with
  | Some (["m"], rest) => (true, rest)
  | _ => (false, r)
  end.

(** Modelled from the spec: [FUNC [m] <address> <size> <param_size> <name>] *)
Definition ParseFunction (l : string) : option Function :=
  match strip_prefix "FUNC " l with
  | None => None
  | Some r0 =>
      let '(multiple, r) := take_multiple r0 in
      match split_tokens 3 r with
      | Some ([a; s; p], rest) =>
          let name := trim_end rest in
          match parse_hex a, parse_hex s, parse_param_size p with
          | Some a', Some s', Some p' =>
              if nonempty name then Some (mkFunction name a' s' p' multiple)
              else None
          | _, _, _ => None
          end
      | _ => None
      end
  end.

(** Modelled from the spec: [<address> <size> <line> <file_id>]; anything after the fourth field is
    ignored (the test accepts a trailing comment). *)
Definition ParseLine (l : string) : option Line :=
  match split_tokens 4 l with
  | Some ([a; s; n; f], _) =>
      match parse_hex a, parse_hex s, parse_dec_nonneg n, parse_dec_nonneg f with
      | Some a', Some s', Some n', Some f' =>
          if n' <=? 2 ^ 31 - 1 then Some (mkLine a' s' n' f') else None
      | _, _, _, _ => None
      end
  | _ => None
  end.

(** Modelled from the spec: [PUBLIC [m] <address> <param_size> <name>] *)
Definition ParsePublicSymbol (l : string) : option PublicSymbol :=
  match strip_prefix "PUBLIC " l with
  | None => None
  | Some r0 =>
      let '(multiple, r) := take_multiple r0 in
      match split_tokens 2 r with
      | Some ([a; p], rest) =>
          let name := trim_end rest in
          match parse_hex a, parse_param_size p with
          | Some a', Some p' =>
              if nonempty name then Some (mkPublic name a' p' multiple) else None
          | _, _ => None
          end
      | _ => None
      end
  end.

(** A token made of digits, optionally led by [-]: the shape of the file id
    of the old INLINE_ORIGIN form. *)
Definition numeric_looking (t : string) : bool :=
  let body := match t with String "-" r => r | _ => t end in
  nonempty body &&
  forallb (fun c => match dec_digit c with Some _ => true | None => false end)
    (list_ascii_of_string body).

(** Modelled from the spec: [INLINE_ORIGIN <origin_id> [<file_id>] <name>].  The old form carries a
    file id (which may be [-1] for an artificial function); it is recognised
    by the shape of the token after the origin id.  The unit test refuses
    [INLINE_ORIGIN 1 1] (missing name), so a numeric-looking second token
    always selects the old form, which then needs a name. *)
Definition ParseInlineOrigin (l : string) : option InlineOrigin :=
  match strip_prefix "INLINE_ORIGIN " l with
  | None => None
  | Some r =>
      match split_tokens 1 r with
      | Some ([o], rest) =>
          match parse_dec_nonneg o with
          | None => None
          | Some o' =>
              let '(t, _) := take_word rest in
              if numeric_looking t then
                match split_tokens 1 rest with
                | Some ([f], rest') =>
                    let name := trim_end rest' in
                    match parse_dec f with
                    | Some f' =>
                        if (-1 <=? f') && nonempty name
                        then Some (mkOrigin true o' f' name) else None
                    | None => None
                    end
                | _ => None
                end
              else
                let name := trim_end rest in
                if nonempty name then Some (mkOrigin false o' 0 name) else None
          end
      | _ => None
      end
  end.

Fixpoint parse_ranges (ts : list string) : option (list (Z * Z)) :=
  match ts with
  | [] => Some []
  | a :: s :: ts' =>
      match parse_hex a, parse_hex s, parse_ranges ts' with
      | Some a', Some s', Some rs => Some ((a', s') :: rs)
      | _, _, _ => None
      end
  | [_] => None
  end.

(** Modelled from the spec: [INLINE <nest_level> <call_site_line> [<call_site_file_id>] <origin_id>
    (<address> <size>)+].  The form is decided by the parity of the number
    of tokens after the keyword: even means the new form with a call-site
    file id, odd the old form without it, as the parser unit vectors of
    the test require ([INLINE 0 1 2 3 4] is old with origin id 2). *)
Definition ParseInline (l : string) : option Inline :=
  match strip_prefix "INLINE " l with
  | None => None
  | Some r =>
      let ts := words r in
      if (length ts <? 5)%nat then None
      else
        let has_file := Nat.even (length ts) in
        match ts with
        | n :: cl :: t3 :: t4 :: rest =>
            let '(file_tok, origin_tok, range_toks) :=
              if has_file then (Some t3, t4, rest) else (None, t3, t4 :: rest) in
            match parse_dec_nonneg n, parse_dec_nonneg cl,
                  match file_tok with
                  | Some f => parse_dec_nonneg f
                  | None => Some 0
                  end,
                  parse_dec_nonneg origin_tok, parse_ranges range_toks with
            | Some n', Some cl', Some f', Some o', Some rs =>
                Some (mkInline has_file n' cl' f' o' rs)
            | _, _, _, _, _ => None
            end
        | _ => None
        end
  end.

(** [STACK WIN <type> <rva> <code_size> <prolog_size> <epilog_size>
    <parameter_size> <saved_register_size> <local_size> <max_stack_size>
    <has_program_string> <program_string_or_allocates_base_pointer>] *)
Inductive StackInfoTypes :=
  STACK_INFO_FPO | STACK_INFO_TRAP | STACK_INFO_TSS | STACK_INFO_STANDARD
| STACK_INFO_FRAME_DATA | STACK_INFO_UNKNOWN.

Record WindowsFrameInfo := mkWFI {
  type_ : StackInfoTypes;
  wfi_rva : Z;
  wfi_code_size : Z;
  prolog_size : Z;
  epilog_size : Z;
  parameter_size : Z;
  saved_register_size : Z;
  local_size : Z;
  max_stack_size : Z;
  allocates_base_pointer : bool;
  program_string : string
}.

Definition stack_info_type (t : string) : option StackInfoTypes :=
  match t with
  | "0" => Some STACK_INFO_FPO
  | "1" => Some STACK_INFO_TRAP
  | "2" => Some STACK_INFO_TSS
  | "3" => Some STACK_INFO_STANDARD
  | "4" => Some STACK_INFO_FRAME_DATA
  | "f" => Some STACK_INFO_UNKNOWN
  | _ => None
  end.

(** Modelled from the spec: [STACK WIN <type> <rva> <code_size> ...] records. *)
Definition ParseStackWin (l : string) : option WindowsFrameInfo :=
  match strip_prefix "STACK WIN " l with
  | None => None
  | Some r =>
      match split_tokens 10 r with
      | Some ([t; rva; cs; pro; epi; par; sav; loc; mx; hps], rest) =>
          match stack_info_type t, parse_hex rva, parse_hex cs, parse_hex pro,
                parse_hex epi, parse_hex par, parse_hex sav, parse_hex loc,
                parse_hex mx with
          | Some t', Some rva', Some cs', Some pro', Some epi', Some par',
            Some sav', Some loc', Some mx' =>
              match hps with
              | "1" =>
                  let ps := trim_end rest in
                  if nonempty ps
                  then Some (mkWFI t' rva' cs' pro' epi' par' sav' loc' mx' false ps)
                  else None
              | "0" =>
                  match parse_hex (fst (take_word rest)) with
                  | Some abp =>
                      Some (mkWFI t' rva' cs' pro' epi' par' sav' loc' mx'
                              (negb (abp =? 0)) "")
                  | None => None
                  end
              | _ => None
              end
          | _, _, _, _, _, _, _, _, _ => None
          end
      | _ => None
      end
  end.

(** A CFI rule set [NAME: EXPR NAME: EXPR ...]: a name is a token ending in
    a colon, its expression the tokens up to the next name. *)
Definition RuleMap := list (string * string).

Definition rule_name (t : string) : option string :=
  match rev (list_ascii_of_string t) with
  | ":"%char :: (_ :: _) as body => Some (string_of_list_ascii (rev body))
  | _ => None
  end.

Fixpoint rules_of_tokens (ts : list string) (name : string) (expr : list string)
    : option RuleMap :=
  match ts with
  | [] =>
      match expr with
      | [] => None
      | _ => Some [(name, String.concat " " (rev expr))]
      end
  | t :: ts' =>
      match rule_name t with
      | Some n =>
          match expr with
          | [] => None
          | _ =>
              match rules_of_tokens ts' n [] with
              | Some rs => Some ((name, String.concat " " (rev expr)) :: rs)
              | None => None
              end
          end
      | None => rules_of_tokens ts' name (t :: expr)
      end
  end.

(** Modelled from the spec: a CFI rule set. *)
Definition ParseCFIRuleSet (s : string) : option RuleMap :=
  match words s with
  | t :: ts =>
      match rule_name t with
      | Some n => rules_of_tokens ts n []
      | None => None
      end
  | [] => None
  end.

Record CfiInit := mkCfiInit {
  cfi_address : Z;
  cfi_size : Z;
  cfi_rules : RuleMap;
  cfi_deltas : list (Z * RuleMap)
}.

(** Modelled from the spec: [STACK CFI INIT <address> <size> <rules>] *)
Definition ParseCFIInit (l : string) : option CfiInit :=
  match strip_prefix "STACK CFI INIT " l with
  | None => None
  | Some r =>
      match split_tokens 2 r with
      | Some ([a; s], rest) =>
          match parse_hex a, parse_hex s, ParseCFIRuleSet rest with
          | Some a', Some s', Some rs => Some (mkCfiInit a' s' rs [])
          | _, _, _ => None
          end
      | _ => None
      end
  end.

(** Modelled from the spec: [STACK CFI <address> <rules>] *)
Definition ParseCFIDelta (l : string) : option (Z * RuleMap) :=
  match strip_prefix "STACK CFI " l with
  | None => None
  | Some r =>
      match split_tokens 1 r with
      | Some ([a], rest) =>
          match parse_hex a, ParseCFIRuleSet rest with
          | Some a', Some rs => Some (a', rs)
          | _, _ => None
          end
      | _ => None
      end
  end.

(** ** The module and its builder *)

Record FunctionEntry := mkEntry {
  fe_func : Function;
  fe_lines : list Line;
  fe_inlines : list Inline
}.

Record Module := mkModule {
  files : list (Z * string);
  inline_origins : list InlineOrigin;
  functions : list FunctionEntry;
  public_symbols : list PublicSymbol;
  windows_frame_info : list WindowsFrameInfo;
  cfi_initial_rules : list CfiInit;
  corrupt : bool
}.

Definition empty_module : Module := mkModule [] [] [] [] [] [] false.

(** Builder state: the module so far, the current FUNC (its lines and
    inlines still being collected) and the current STACK CFI INIT. *)
Record Builder := mkBuilder {
  b_module : Module;
  b_cur_func : option FunctionEntry;
  b_cur_cfi : option CfiInit
}.

Definition set_corrupt (m : Module) : Module :=
  mkModule (files m) (inline_origins m) (functions m) (public_symbols m)
    (windows_frame_info m) (cfi_initial_rules m) true.

Definition add_file (m : Module) (f : Z * string) : Module :=
  mkModule (files m ++ [f])%list (inline_origins m) (functions m)
    (public_symbols m) (windows_frame_info m) (cfi_initial_rules m) (corrupt m).

Definition add_origin (m : Module) (o : InlineOrigin) : Module :=
  mkModule (files m) (inline_origins m ++ [o])%list (functions m)
    (public_symbols m) (windows_frame_info m) (cfi_initial_rules m) (corrupt m).

Definition add_function (m : Module) (fe : FunctionEntry) : Module :=
  mkModule (files m) (inline_origins m) (functions m ++ [fe])%list
    (public_symbols m) (windows_frame_info m) (cfi_initial_rules m) (corrupt m).

Definition add_public (m : Module) (p : PublicSymbol) : Module :=
  mkModule (files m) (inline_origins m) (functions m)
    (public_symbols m ++ [p])%list (windows_frame_info m) (cfi_initial_rules m)
    (corrupt m).

Definition add_wfi (m : Module) (w : WindowsFrameInfo) : Module :=
  mkModule (files m) (inline_origins m) (functions m) (public_symbols m)
    (windows_frame_info m ++ [w])%list (cfi_initial_rules m) (corrupt m).

Definition add_cfi (m : Module) (c : CfiInit) : Module :=
  mkModule (files m) (inline_origins m) (functions m) (public_symbols m)
    (windows_frame_info m) (cfi_initial_rules m ++ [c])%list (corrupt m).

Definition has_file (m : Module) (id : Z) : bool :=
  existsb (fun '(i, _) => i =? id) (files m).

Definition has_origin (m : Module) (id : Z) : bool :=
  existsb (fun o => origin_id o =? id) (inline_origins m).

Definition end_of (a s : Z) : Z := a + s.

(** Two function intervals clash when they start at the same address or
    overlap. *)
Definition func_clash (f g : Function) : bool :=
  (func_address f =? func_address g) ||
  ((func_address f <? end_of (func_address g) (func_size g)) &&
   (func_address g <? end_of (func_address f) (func_size f))).

Definition flush_func (b : Builder) : Module :=
  match b_cur_func b with
  | Some fe => add_function (b_module b) fe
  | None => b_module b
  end.

Definition flush_cfi (m : Module) (c : option CfiInit) : Module :=
  match c with Some ci => add_cfi m ci | None => m end.

Definition corrupt_b (b : Builder) : Builder :=
  mkBuilder (set_corrupt (b_module b)) (b_cur_func b) (b_cur_cfi b).

Definition with_module (b : Builder) (m : Module) : Builder :=
  mkBuilder m (b_cur_func b) (b_cur_cfi b).

Definition is_hex_char (c : ascii) : bool :=
  match hex_digit c with Some _ => true | None => false end.

Definition starts_with (p s : string) : bool :=
  match strip_prefix p s with Some _ => true | None => false end.

(** Modelled from the spec: One line of the symbol file. *)
Definition step (b : Builder) (l : string) : Builder :=
  if starts_with "FILE " l then
    match ParseFile l with
    | Some f => with_module b (add_file (b_module b) f)
    | None => corrupt_b b
    end
  else if starts_with "FUNC " l then
    let m := flush_func b in
    match ParseFunction l with
    | Some f =>
        let clash := existsb (fun fe => func_clash f (fe_func fe)) (functions m) in
        if clash then mkBuilder (set_corrupt m) None (b_cur_cfi b)
        else mkBuilder m (Some (mkEntry f [] [])) (b_cur_cfi b)
    | None => mkBuilder (set_corrupt m) None (b_cur_cfi b)
    end
  else if starts_with "INLINE_ORIGIN " l then
    match ParseInlineOrigin l with
    | Some o => with_module b (add_origin (b_module b) o)
    | None => corrupt_b b
    end
  else if starts_with "INLINE " l then
    match ParseInline l, b_cur_func b with
    | Some i, Some fe =>
        if has_origin (b_module b) (inl_origin_id i) &&
           (negb (inl_has_call_site_file_id i) ||
            has_file (b_module b) (inl_call_site_file_id i))
        then mkBuilder (b_module b)
               (Some (mkEntry (fe_func fe) (fe_lines fe) (fe_inlines fe ++ [i])%list))
               (b_cur_cfi b)
        else corrupt_b b
    | _, _ => corrupt_b b
    end
  else if starts_with "PUBLIC " l then
    match ParsePublicSymbol l with
    | Some p => with_module b (add_public (b_module b) p)
    | None => corrupt_b b
    end
  else if starts_with "STACK WIN " l then
    match ParseStackWin l with
    | Some w => with_module b (add_wfi (b_module b) w)
    | None => corrupt_b b
    end
  else if starts_with "STACK CFI INIT " l then
    let m := flush_cfi (b_module b) (b_cur_cfi b) in
    match ParseCFIInit l with
    | Some c => mkBuilder m (b_cur_func b) (Some c)
    | None => mkBuilder (set_corrupt m) (b_cur_func b) None
    end
  else if starts_with "STACK CFI " l then
    match ParseCFIDelta l, b_cur_cfi b with
    | Some (a, rs), Some c =>
        if (cfi_address c <=? a) && (a <? end_of (cfi_address c) (cfi_size c))
        then mkBuilder (b_module b) (b_cur_func b)
               (Some (mkCfiInit (cfi_address c) (cfi_size c) (cfi_rules c)
                        (cfi_deltas c ++ [(a, rs)])%list))
        else corrupt_b b
    | _, _ => corrupt_b b
    end
  else if starts_with "MODULE " l || starts_with "INFO " l then b
  else
    match l with
    | String c _ =>
        if is_hex_char c then
          (* a line record of the current function *)
          match ParseLine l, b_cur_func b with
          | Some ln, Some fe =>
              if has_file (b_module b) (line_file ln)
              then mkBuilder (b_module b)
                     (Some (mkEntry (fe_func fe) (fe_lines fe ++ [ln])%list
                              (fe_inlines fe)))
                     (b_cur_cfi b)
              else corrupt_b b
          | _, _ => corrupt_b b
          end
        else b  (* unknown record kinds are ignored *)
    | EmptyString => b
    end.

Definition empty_builder : Builder := mkBuilder empty_module None None.

Definition finish (b : Builder) : Module := flush_cfi (flush_func b) (b_cur_cfi b).

(** Modelled from the spec: the module built from the lines of a symbol file, the open FUNC and STACK CFI INIT flushed at the end. *)
Definition build_module (lines : list string) : Module :=
  finish (fold_left step lines empty_builder).

(** ** The module store *)

Record CodeModule := mkCodeModule {
  code_file : string;
  base_address : Z
}.

(** Loaded modules, keyed by the code file of the module. *)
Definition Store := list (string * Module).

Fixpoint find_module (st : Store) (key : string) : option Module :=
  match st with
  | [] => None
  | (k, m) :: st' => if String.eqb k key then Some m else find_module st' key
  end.

(** Modelled from the spec: whether a module is loaded. *)
Definition HasModule (st : Store) (cm : CodeModule) : bool :=
  match find_module st (code_file cm) with Some _ => true | None => false end.

(** Modelled from the spec: whether a loaded module is flagged corrupt. *)
Definition IsModuleCorrupt (st : Store) (cm : CodeModule) : bool :=
  match find_module st (code_file cm) with Some m => corrupt m | None => false end.

(** Modelled from the spec: removes a module from the store. *)
Definition UnloadModule (st : Store) (cm : CodeModule) : Store :=
  filter (fun '(k, _) => negb (String.eqb k (code_file cm))) st.

(** Modelled from the spec: [LoadModule st cm file]: [file] is the content of the symbol file as a
    list of lines, or [None] when the file is absent or unreadable.  An I/O
    failure is reported and installs nothing; otherwise the module built
    from the lines is installed, corrupt or not. *)
Definition LoadModule (st : Store) (cm : CodeModule) (file : option (list string))
    : bool * Store :=
  match file with
  | None => (false, st)
  | Some lines => (true, (code_file cm, build_module lines) :: UnloadModule st cm)
  end.

(** ** Stack frames *)

Inductive FrameTrust := FRAME_TRUST_NONE | FRAME_TRUST_INLINE.

Record StackFrame := mkFrame {
  instruction : Z;
  module : option CodeModule;
  function_name : string;
  function_base : Z;
  source_file_name : string;
  source_line : Z;
  source_line_base : Z;
  is_multiple : bool;
  trust : FrameTrust
}.

Definition empty_frame (ip : Z) (cm : option CodeModule) : StackFrame :=
  mkFrame ip cm "" 0 "" 0 0 false FRAME_TRUST_NONE.

(** ** Address queries *)

Definition in_range (a s x : Z) : bool := (a <=? x) && (x <? end_of a s).

(** A function of size 0 is addressable only at its own address. *)
Definition func_contains (f : Function) (x : Z) : bool :=
  if func_size f =? 0 then func_address f =? x
  else in_range (func_address f) (func_size f) x.

(** Modelled from the spec: the function whose interval contains an address. *)
Definition find_function (m : Module) (x : Z) : option FunctionEntry :=
  find (fun fe => func_contains (fe_func fe) x) (functions m).

(** Modelled from the spec: The function with the greatest address at or below [x]. *)
Definition nearest_function_below (m : Module) (x : Z) : option Function :=
  fold_left
    (fun acc fe =>
       let f := fe_func fe in
       if func_address f <=? x then
         match acc with
         | Some g => if func_address g <? func_address f then Some f else acc
         | None => Some f
         end
       else acc)
    (functions m) None.

(** Modelled from the spec: The public symbol with the greatest address at or below [x]. *)
Definition find_public (m : Module) (x : Z) : option PublicSymbol :=
  fold_left
    (fun acc p =>
       if pub_address p <=? x then
         match acc with
         | Some q => if pub_address q <? pub_address p then Some p else acc
         | None => Some p
         end
       else acc)
    (public_symbols m) None.

(** Modelled from the spec: the line record containing an address. *)
Definition find_line (fe : FunctionEntry) (x : Z) : option Line :=
  find (fun ln => in_range (line_address ln) (line_size ln) x) (fe_lines fe).

Definition file_name (m : Module) (id : Z) : string :=
  match find (fun '(i, _) => i =? id) (files m) with
  | Some (_, n) => n
  | None => ""
  end.

Definition find_origin (m : Module) (id : Z) : option InlineOrigin :=
  find (fun o => origin_id o =? id) (inline_origins m).

(** The start of the range of an inline that contains [x]. *)
Definition inline_range_start (i : Inline) (x : Z) : option Z :=
  match find (fun '(a, s) => in_range a s x) (inl_ranges i) with
  | Some (a, _) => Some a
  | None => None
  end.

Definition inline_contains (i : Inline) (x : Z) : bool :=
  match inline_range_start i x with Some _ => true | None => false end.

Definition select_inline (fe : FunctionEntry) (level x : Z) : option Inline :=
  find (fun i => (inl_nest_level i =? level) && inline_contains i x) (fe_inlines fe).

(** The inline chain at [x], outermost first: for each nest level 0, 1, ...
    the inline record of that level whose ranges contain [x], up to the
    first level with none. *)
Fixpoint chain_from (fuel : nat) (fe : FunctionEntry) (level x : Z) : list Inline :=
  match fuel with
  | O => []
  | S fuel' =>
      match select_inline fe level x with
      | Some i => i :: chain_from fuel' fe (level + 1) x
      | None => []
      end
  end.

(** Modelled from the spec: the inline chain at an address, from nest level 0 outwards in. *)
Definition inline_chain (fe : FunctionEntry) (x : Z) : list Inline :=
  chain_from (length (fe_inlines fe)) fe 0 x.

(** ** FillSourceLineInfo *)

Definition origin_name_of (m : Module) (i : Inline) : string :=
  match find_origin m (inl_origin_id i) with Some o => origin_name o | None => "" end.

(** The file an inline frame has of its own: the origin's file in the old
    format, none in the new one. *)
Definition origin_file_of (m : Module) (i : Inline) : string :=
  match find_origin m (inl_origin_id i) with
  | Some o =>
      if origin_has_file_id o && (0 <=? origin_file_id o)
      then file_name m (origin_file_id o) else ""
  | None => ""
  end.

(** The call site of inline [i], a location inside its parent frame; in the
    old format the call site carries no file and the parent keeps its own. *)
Definition callsite_loc (m : Module) (i : Inline) (parent_file : string) : string * Z :=
  ((if inl_has_call_site_file_id i then file_name m (inl_call_site_file_id i)
    else parent_file), inl_call_site_line i).

(** Modelled from the spec: The (file, line) reported for each inline of the chain (outermost
    first): the call site of the next deeper inline, and for the innermost
    one the function's line record at the address.  The specification gives
    the reason: call-site information describes where the inlined code was
    called from, i.e. a location in the parent frame.  (The test
    TestLoadAndResolveNewInlines requires it: its innermost frame [func()]
    reports [linux_inline.cpp], which in the new format, whose INLINE_ORIGIN
    records carry no file, only a line record can supply.) *)
Fixpoint with_locations (m : Module) (lnloc : option (string * Z)) (chain : list Inline)
    : list (Inline * (string * Z)) :=
  match chain with
  | [] => []
  | i :: rest =>
      let own := origin_file_of m i in
      let loc :=
        match rest with
        | j :: _ => callsite_loc m j own
        | [] => match lnloc with Some l => l | None => (own, 0) end
        end in
      (i, loc) :: with_locations m lnloc rest
  end.

Definition mk_inline_frame (m : Module) (cm : CodeModule) (x ip lbase : Z)
    (il : Inline * (string * Z)) : StackFrame :=
  let '(i, (file, line)) := il in
  let start := match inline_range_start i x with Some a => a | None => 0 end in
  mkFrame ip (Some cm) (origin_name_of m i) (base_address cm + start) file line
    lbase false FRAME_TRUST_INLINE.

(** Modelled from the spec: Resolution of a frame against a loaded module: the function containing
    the address, its line record and its inline chain; otherwise the public
    symbol with the greatest address at or below it, unless a function
    starts between that symbol and the address (the test expects no symbol
    at 0x219f in module2, after Function2_2, although Public2_1 lies below;
    and Public2_2 at 0x21a0). *)
Definition LookupAddress (m : Module) (cm : CodeModule) (fr : StackFrame)
    : StackFrame * list StackFrame :=
  let ip := instruction fr in
  let base := base_address cm in
  let x := ip - base in
  match find_function m x with
  | Some fe =>
      let f := fe_func fe in
      let ln := find_line fe x in
      let lnloc := option_map (fun l => (file_name m (line_file l), line_number l)) ln in
      let lbase := match ln with Some l => base + line_address l | None => 0 end in
      let chain := inline_chain fe x in
      let '(file, line) :=
        match chain with
        | i0 :: _ =>
            callsite_loc m i0 (match lnloc with Some (fl, _) => fl | None => "" end)
        | [] => match lnloc with Some l => l | None => ("", 0) end
        end in
      (mkFrame ip (module fr) (func_name f) (base + func_address f) file line lbase
         (func_multiple f) (trust fr),
       map (mk_inline_frame m cm x ip lbase) (rev (with_locations m lnloc chain)))
  | None =>
      match find_public m x with
      | Some p =>
          let unblocked :=
            match nearest_function_below m x with
            | Some g => func_address g <? pub_address p
            | None => true
            end in
          if unblocked then
            (mkFrame ip (module fr) (pub_name p) (base + pub_address p) "" 0 0
               (pub_multiple p) (trust fr), [])
          else (fr, [])
      | None => (fr, [])
      end
  end.

(** Modelled from the spec: [FillSourceLineInfo st fr inlined]: the filled frame, and [inlined] with
    the inline frames appended (innermost first). *)
Definition FillSourceLineInfo (st : Store) (fr : StackFrame) (inlined : list StackFrame)
    : StackFrame * list StackFrame :=
  match module fr with
  | None => (fr, inlined)
  | Some cm =>
      match find_module st (code_file cm) with
      | None => (fr, inlined)
      | Some m =>
          let '(fr', news) := LookupAddress m cm fr in (fr', (inlined ++ news)%list)
      end
  end.

(** ** FindWindowsFrameInfo *)

(** Modelled from the spec: the first STACK WIN record whose range contains the address. *)
Definition FindWindowsFrameInfo (st : Store) (fr : StackFrame) : option WindowsFrameInfo :=
  match module fr with
  | None => None
  | Some cm =>
      match find_module st (code_file cm) with
      | None => None
      | Some m =>
          let x := instruction fr - base_address cm in
          find (fun w => in_range (wfi_rva w) (wfi_code_size w) x) (windows_frame_info m)
      end
  end.

(** ** FindCFIFrameInfo *)

Fixpoint insert_delta (d : Z * RuleMap) (l : list (Z * RuleMap)) : list (Z * RuleMap) :=
  match l with
  | [] => [d]
  | e :: l' => if fst d <? fst e then d :: l else e :: insert_delta d l'
  end.

Definition sort_deltas (l : list (Z * RuleMap)) : list (Z * RuleMap) :=
  fold_left (fun acc d => insert_delta d acc) l [].

Fixpoint set_rule (n e : string) (rs : RuleMap) : RuleMap :=
  match rs with
  | [] => [(n, e)]
  | (k, v) :: rs' => if String.eqb k n then (n, e) :: rs' else (k, v) :: set_rule n e rs'
  end.

Definition apply_delta (rs : RuleMap) (d : Z * RuleMap) : RuleMap :=
  fold_left (fun acc '(n, e) => set_rule n e acc) (snd d) rs.

(** Modelled from the spec: The rules in effect at [x] within an INIT: its initial rules, then each
    delta at an address at or below [x], in ascending order. *)
Definition rules_at (c : CfiInit) (x : Z) : RuleMap :=
  fold_left apply_delta (sort_deltas (filter (fun d => fst d <=? x) (cfi_deltas c)))
    (cfi_rules c).

(** Modelled from the spec: the CFI INIT whose range contains an address. *)
Definition find_cfi_init (m : Module) (x : Z) : option CfiInit :=
  find (fun c => in_range (cfi_address c) (cfi_size c) x) (cfi_initial_rules m).

(** Modelled from the spec: the CFI rules in effect at the address of the frame. *)
Definition FindCFIFrameInfo (st : Store) (fr : StackFrame) : option RuleMap :=
  match module fr with
  | None => None
  | Some cm =>
      match find_module st (code_file cm) with
      | None => None
      | Some m =>
          let x := instruction fr - base_address cm in
          option_map (fun c => rules_at c x) (find_cfi_init m x)
      end
  end.

(** ** The postfix evaluator (values only, as CFI rules use it) *)

Definition RegisterValueMap := list (string * Z).

Fixpoint lookup_reg (regs : RegisterValueMap) (n : string) : option Z :=
  match regs with
  | [] => None
  | (k, v) :: r => if String.eqb k n then Some v else lookup_reg r n
  end.

Fixpoint lookup_rule (rs : RuleMap) (n : string) : option string :=
  match rs with
  | [] => None
  | (k, e) :: r => if String.eqb k n then Some e else lookup_rule r n
  end.

(** A memory reader: the word at an address, if readable. *)
Definition MemoryRegion := Z -> option Z.

Definition binop (op : string) (a b : Z) : option Z :=
  match op with
  | "+" => Some (a + b)
  | "-" => Some (a - b)
  | "*" => Some (a * b)
  | "/" => if b =? 0 then None else Some (a / b)
  | "%" => if b =? 0 then None else Some (a mod b)
  | _ => None
  end.

Definition is_operator (t : string) : bool :=
  match t with "+" | "-" | "*" | "/" | "%" => true | _ => false end.

Definition parse_literal (t : string) : option Z :=
  match t with
  | String "0" (String "x" r) => parse_hex r
  | _ => parse_dec_nonneg t
  end.

Definition is_variable (t : string) : bool :=
  match t with String "$" _ | String "." _ => true | _ => false end.

Section Evaluator.
(** The word width: 32 for the x86 registers of the tests. *)
Variable bits : Z.
Variable memory : MemoryRegion.

Definition wrap (v : Z) : Z := v mod 2 ^ bits.

(** Modelled from the spec: the postfix evaluator of the CFI rule expressions; [^] reads memory. *)
Fixpoint eval_postfix (regs : RegisterValueMap) (ts : list string) (stack : list Z)
    : option (list Z) :=
  match ts with
  | [] => Some stack
  | t :: ts' =>
      if is_operator t then
        match stack with
        | b :: a :: st =>
            match binop t a b with
            | Some v => eval_postfix regs ts' (wrap v :: st)
            | None => None
            end
        | _ => None
        end
      else if String.eqb t "^" then
        match stack with
        | a :: st =>
            match memory a with
            | Some v => eval_postfix regs ts' (wrap v :: st)
            | None => None
            end
        | [] => None
        end
      else if String.eqb t "@" then eval_postfix regs ts' stack
      else if is_variable t then
        match lookup_reg regs t with
        | Some v => eval_postfix regs ts' (v :: stack)
        | None => None
        end
      else
        match parse_literal t with
        | Some v => eval_postfix regs ts' (wrap v :: stack)
        | None => None
        end
  end.

(** Modelled from the spec: evaluates an expression that must leave exactly one value. *)
Definition EvaluateForValue (regs : RegisterValueMap) (expr : string) : option Z :=
  match eval_postfix regs (words expr) [] with
  | Some [v] => Some v
  | _ => None
  end.

(** Modelled from the spec: evaluates the rules of the registers other than [.cfa] and [.ra]. *)
Fixpoint eval_register_rules (working : RegisterValueMap) (rs : RuleMap)
    : option RegisterValueMap :=
  match rs with
  | [] => Some []
  | (n, e) :: rs' =>
      if String.eqb n ".cfa" || String.eqb n ".ra" then eval_register_rules working rs'
      else
        match EvaluateForValue working e, eval_register_rules working rs' with
        | Some v, Some out => Some ((n, v) :: out)
        | _, _ => None
        end
  end.

(** Modelled from the spec: CFIFrameInfo::FindCallerRegs: [.cfa] first, then [.ra] and every other
    rule, each from the callee registers plus the new [.cfa]; any failure
    discards the whole result. *)
Definition FindCallerRegs (rules : RuleMap) (regs : RegisterValueMap)
    : option RegisterValueMap :=
  match lookup_rule rules ".cfa", lookup_rule rules ".ra" with
  | Some ce, Some re =>
      match EvaluateForValue regs ce with
      | None => None
      | Some cfa =>
          let working := (".cfa", cfa) :: regs in
          match EvaluateForValue working re, eval_register_rules working rules with
          | Some ra, Some others => Some ((".cfa", cfa) :: (".ra", ra) :: others)
          | _, _ => None
          end
      end
  | _, _ => None
  end.
End Evaluator.

(** Two register maps with the same associations. *)
Definition opt_Z_eqb (a b : option Z) : bool :=
  match a, b with
  | Some x, Some y => x =? y
  | None, None => true
  | _, _ => false
  end.

Definition same_map (m1 m2 : RegisterValueMap) : bool :=
  forallb (fun '(k, _) => opt_Z_eqb (lookup_reg m1 k) (lookup_reg m2 k)) (m1 ++ m2)%list.

(** ** The test inputs

    The symbol files of the unit test (testdata/module1.out, module2.out and
    the linux_inline .sym files) are not part of the sources; the fragments
    below are reconstructed from the test's assertions and comments, and the
    lemmas at the end of the file check that every assertion of the test
    holds on them. *)

Definition module1_sym : list string := [
  "MODULE windows x86 111111111111111111111111111111111 module1.pdb";
  "FILE 1 file1_1.cc";
  "FUNC m 1000 200 0 Function1_1";
  "1000 10 44 1";
  "FUNC 1200 100 0 Function1_3";
  "FUNC 1300 100 0 Function1_4";
  "FUNC 4000 1000 0 LargeFunction";
  "PUBLIC m 2900 0 PublicSymbol";
  "STACK WIN 4 1000 200 1 0 0 0 0 0 1 $eip 4 + ^ = $esp $ebp 8 + = $ebp $ebp ^ =";
  "STACK WIN f 1200 100 0 0 0 0 0 0 0 0";
  "STACK WIN 4 1300 100 1 0 0 0 0 0 1 $eip 4 + ^ = $esp $ebp 8 + = $ebp $ebp ^ =";
  "STACK CFI INIT 3d40 b0 .cfa: $esp 4 + .ra: .cfa 4 - ^";
  "STACK CFI 3d41 .cfa: $esp 8 +";
  "STACK CFI 3d43 .cfa: $ebp 8 + $ebp: .cfa 8 - ^";
  "STACK CFI 3d54 $ebx: .cfa 20 - ^";
  "STACK CFI 3d5a $esi: .cfa 16 - ^";
  "STACK CFI 3d84 $edi: .cfa 12 - ^"
].

Definition module2_sym : list string := [
  "MODULE windows x86 222222222222222222222222222222222 module2.pdb";
  "FILE 1 file2_1.cc";
  "FILE 2 file2_2.cc";
  "FUNC 2000 c 4 Function2_1";
  "2000 c 51 1";
  "FUNC 2170 14 4 Function2_2";
  "2170 6 10 2";
  "2176 4 12 2";
  "217a 6 13 2";
  "2180 4 21 2";
  "PUBLIC 2160 0 Public2_1";
  "PUBLIC 21a0 0 Public2_2";
  "STACK WIN 4 2170 14 1 0 0 0 0 0 1 $eip 4 + ^ = $esp $ebp 8 + = $ebp $ebp ^ =";
  "STACK CFI INIT 3df0 b0 .cfa: $esp 4 + .ra: .cfa 4 - ^"
].

Definition linux_inline_old_sym : list string := [
  "MODULE Linux x86_64 BBA6FA10B8AAB33D00000000000000000 linux_inline";
  "FILE 0 linux_inline.cpp";
  "INLINE_ORIGIN 0 0 foo()";
  "INLINE_ORIGIN 1 0 bar()";
  "INLINE_ORIGIN 2 0 func()";
  "FUNC 15b30 6cf 0 main";
  "INLINE 0 42 0 15b45 6b1";
  "INLINE 1 39 1 15b72 684";
  "INLINE 2 32 2 15b83 673";
  "161b6 a 27 0"
].

Definition linux_inline_new_sym : list string := [
  "MODULE Linux x86_64 BBA6FA10B8AAB33D00000000000000000 linux_inline";
  "FILE 0 linux_inline.cpp";
  "FILE 1 a.cpp";
  "FILE 2 b.cpp";
  "FILE 3 c.cpp";
  "INLINE_ORIGIN 0 foo()";
  "INLINE_ORIGIN 1 bar()";
  "INLINE_ORIGIN 2 func()";
  "FUNC 15b30 6cf 0 main";
  "INLINE 0 42 1 0 15b45 6b1";
  "INLINE 1 39 2 1 15b72 684";
  "INLINE 2 32 3 2 15b83 673";
  "161b6 a 27 0"
].

Definition module1 : CodeModule := mkCodeModule "module1" 0.
Definition module2 : CodeModule := mkCodeModule "module2" 0.
Definition linux_inline : CodeModule := mkCodeModule "linux_inline" 0.

(** The resolver of TestLoadAndResolve after loading module1 and module2. *)
Definition resolver12 : Store :=
  snd (LoadModule (snd (LoadModule [] module1 (Some module1_sym))) module2
         (Some module2_sym)).

Definition at_ip (ip : Z) (cm : CodeModule) : StackFrame := empty_frame ip (Some cm).

(** MockMemoryRegion::GetMemoryAtAddress for 32-bit words. *)
Definition mock_memory : MemoryRegion := fun a =>
  Some (if a =? 0x10008 then 0x98ecadc3
        else if a =? 0x1000c then 0x878f7524
        else if a =? 0x10010 then 0x6312f9a5
        else if a =? 0x10014 then 0x10038
        else if a =? 0x10018 then 0xf6438648
        else 0xdeadbeef).

Definition callee_registers : RegisterValueMap :=
  [("$esp", 0x10018); ("$ebp", 0x10038); ("$ebx", 0x98ecadc3);
   ("$esi", 0x878f7524); ("$edi", 0x6312f9a5)].

Definition expected_caller_registers : RegisterValueMap :=
  [(".cfa", 0x1001c); (".ra", 0xf6438648); ("$ebp", 0x10038);
   ("$ebx", 0x98ecadc3); ("$esi", 0x878f7524); ("$edi", 0x6312f9a5)].

(** ** Auxiliary definitions for the properties *)

Definition module1_built : Module := build_module module1_sym.
Definition module2_built : Module := build_module module2_sym.
Definition inline_new_built : Module := build_module linux_inline_new_sym.
Definition inline_old_store : Store :=
  snd (LoadModule [] linux_inline (Some linux_inline_old_sym)).
Definition inline_new_store : Store :=
  snd (LoadModule [] linux_inline (Some linux_inline_new_sym)).

Definition inline_old_built : Module := build_module linux_inline_old_sym.

Definition no_entry : FunctionEntry := mkEntry (mkFunction "" 0 0 0 false) [] [].

(** The entry of [main] in the two linux_inline modules. *)
Definition inline_old_main : FunctionEntry :=
  match find_function inline_old_built 0x161b6 with Some fe => fe | None => no_entry end.
Definition inline_new_main : FunctionEntry :=
  match find_function inline_new_built 0x161b6 with Some fe => fe | None => no_entry end.

(** A module no test loads. *)
Definition module3 : CodeModule := mkCodeModule "module3" 0.

Definition frame_summary (fr : StackFrame) : string * Z * string * Z * Z :=
  (function_name fr, function_base fr, source_file_name fr, source_line fr,
   source_line_base fr).

(** The caller registers recovered at [ip] in module1 agree with the expected
    ones (the check of VerifyRegisters). *)
Definition test_cfi_point (ip : Z) (regs : RegisterValueMap) : bool :=
  match FindCFIFrameInfo resolver12 (at_ip ip module1) with
  | Some rs =>
      match FindCallerRegs 32 mock_memory rs regs with
      | Some caller =>
          forallb (fun '(k, v) => opt_Z_eqb (lookup_reg expected_caller_registers k) (Some v))
            caller
      | None => false
      end
  | None => false
  end.

(** The addresses [a], [a+1], ..., [a+n-1]. *)
Definition all_ips (a : Z) (n : nat) : list Z :=
  map (fun k => a + Z.of_nat k) (seq 0 n).

(** The caller map recovered at [ip] in module1 from fixed callee registers,
    compared with a given map. *)
Definition caller_map_is (regs expected : RegisterValueMap) (ip : Z) : bool :=
  match FindCFIFrameInfo resolver12 (at_ip ip module1) with
  | Some rs =>
      match FindCallerRegs 32 mock_memory rs regs with
      | Some caller => same_map caller expected
      | None => false
      end
  | None => false
  end.

(** The deltas of module1's CFI INIT record. *)
Definition module1_cfi_deltas : list (Z * RuleMap) :=
  match cfi_initial_rules module1_built with
  | c :: _ => cfi_deltas c
  | [] => []
  end.

(** The callee registers of TestLoadAndResolve at 0x3d84, after the test has
    updated $esp, $ebp, $ebx, $esi and $edi along the way. *)
Definition registers_at_3d84 : RegisterValueMap :=
  [("$esp", 0x10014); ("$ebp", 0x10014); ("$ebx", 0x6864f054);
   ("$esi", 0x6285f79a); ("$edi", 0x64061449)].

(** Two CFI INIT records that abut: [0x100, 0x110) and [0x110, 0x120). *)
Definition abutting_cfi_sym : list string := [
  "STACK CFI INIT 100 10 .cfa: $esp 4 + .ra: .cfa 4 - ^";
  "STACK CFI INIT 110 10 .cfa: $esp 4 + .ra: .cfa 4 - ^"
].

Definition abutting_store : Store := snd (LoadModule [] module3 (Some abutting_cfi_sym)).

(** The (file, line) of the line record at [x] of the function containing [x]. *)
Definition line_record_loc (m : Module) (x : Z) : option (string * Z) :=
  match find_function m x with
  | Some fe =>
      option_map (fun l => (file_name m (line_file l), line_number l)) (find_line fe x)
  | None => None
  end.



(** A record line whose parser fails, following the dispatch of [step]. *)
Definition parse_fails {A} (o : option A) : bool :=
  match o with Some _ => false | None => true end.

Definition malformed_line (l : string) : bool :=
  if starts_with "FILE " l then parse_fails (ParseFile l)
  else if starts_with "FUNC " l then parse_fails (ParseFunction l)
  else if starts_with "INLINE_ORIGIN " l then parse_fails (ParseInlineOrigin l)
  else if starts_with "INLINE " l then parse_fails (ParseInline l)
  else if starts_with "PUBLIC " l then parse_fails (ParsePublicSymbol l)
  else if starts_with "STACK WIN " l then parse_fails (ParseStackWin l)
  else if starts_with "STACK CFI INIT " l then parse_fails (ParseCFIInit l)
  else if starts_with "STACK CFI " l then parse_fails (ParseCFIDelta l)
  else if starts_with "MODULE " l || starts_with "INFO " l then false
  else
    match l with
    | String c _ => is_hex_char c && parse_fails (ParseLine l)
    | EmptyString => false
    end.

(** A malformed line that does not open a FUNC or STACK CFI INIT scope. *)
Definition malformed_leaf (l : string) : bool :=
  malformed_line l && negb (starts_with "FUNC " l) && negb (starts_with "STACK CFI INIT " l).

(** A symbol file with a malformed PUBLIC record among good ones. *)
Definition module3_bad_sym : list string := [
  "FILE 1 file3_1.cc";
  "FUNC 1000 100 0 Function3_1";
  "1000 10 7 1";
  "PUBLIC zz 0 Broken";
  "PUBLIC 2000 0 Public3_1"
].

(** A step of the running maximum: the candidate with the greatest key at or
    below [x]. *)
Definition step_max {A B} (g : A -> B) (kb : B -> Z) (x : Z) (acc : option B) (a : A)
    : option B :=
  if kb (g a) <=? x then
    match acc with
    | Some q => if kb q <? kb (g a) then Some (g a) else acc
    | None => Some (g a)
    end
  else acc.



(** ** The helpers of the unit test *)

(** The loop of VerifyRegisters over the associations of ACTUAL: an entry
    missing from EXPECTED, or recorded there with another value, stops it
    with false (after a diagnostic on stderr, not modelled). *)
Fixpoint verify_actual_entries (expected actual : RegisterValueMap) : bool :=
  match actual with
  | [] => true
  | (k, v) :: rest =>
      match lookup_reg expected k with
      | None => false
      | Some e => if negb (e =? v) then false else verify_actual_entries expected rest
      end
  end.

(** VerifyRegisters: ACTUAL must have [.cfa] and [.ra], and each of its
    associations must be one of EXPECTED's.  The file and line arguments
    only label the diagnostics. *)
Definition VerifyRegisters (expected actual : RegisterValueMap) : bool :=
  match lookup_reg actual ".cfa" with
  | None => false
  | Some _ =>
      match lookup_reg actual ".ra" with
      | None => false
      | Some _ => verify_actual_entries expected actual
      end
  end.

(** ** dump_syms_tool.cc (the Mach-O symbol dumper)

    The tool's own functions are embedded from src/unnamed/part_000.  The
    classes it drives, google_breakpad::Module and DumpSymbols, are not part
    of the sources: they are interfaces below (type classes), and every
    property is proved for every implementation of them.  A STACK CFI entry
    of a Module (address, size, initial rules, rule changes) is a
    [CfiInit]. *)

Definition StackFrameEntry := CfiInit.

(** Module::Address is a uint64_t. *)
Definition address_modulus : Z := 2 ^ 64.

(** StackFrameEntryComparator: orders entries by address. *)
Definition StackFrameEntryComparator (a b : StackFrameEntry) : bool :=
  cfi_address a <? cfi_address b.

(** std::sort with StackFrameEntryComparator, as an insertion sort; the order
    std::sort gives entries with equal addresses is unspecified, which is why
    the properties below hold for any list sorted by address. *)
Fixpoint insert_entry (e : StackFrameEntry) (l : list StackFrameEntry) : list StackFrameEntry :=
  match l with
  | [] => [e]
  | x :: r => if StackFrameEntryComparator x e then x :: insert_entry e r else e :: l
  end.

Definition sort_entries (l : list StackFrameEntry) : list StackFrameEntry :=
  fold_right insert_entry [] l.

(** The inner while loop: moves [to_it] past the entries whose address is
    below the address of [from_entry]. *)
Fixpoint advance_to_it (from_entry : StackFrameEntry) (to_it : list StackFrameEntry)
    : list StackFrameEntry :=
  match to_it with
  | [] => []
  | t :: ts =>
      if cfi_address from_entry >? cfi_address t then advance_to_it from_entry ts else to_it
  end.

(** from_entry_end, computed in uint64_t. *)
Definition from_entry_end (e : StackFrameEntry) : Z :=
  (cfi_address e + cfi_size e) mod address_modulus.

(** The test that decides the copy, on the entry [to_it] points at. *)
Definition safe_to_copy (from_entry : StackFrameEntry) (to_it : list StackFrameEntry) : bool :=
  match to_it with
  | [] => true
  | t :: _ => (cfi_address from_entry <? cfi_address t) && (from_entry_end from_entry <? cfi_address t)
  end.

(** The for loop of CopyCFIDataBetweenModules over the sorted entries of
    |from_module|, with the iterator into the sorted entries of |to_module|
    kept across iterations: the entries it adds to |to_module|, in order. *)
Fixpoint copy_loop (from_data to_it : list StackFrameEntry) : list StackFrameEntry :=
  match from_data with
  | [] => []
  | from_entry :: rest =>
      let to_it' := advance_to_it from_entry to_it in
      if safe_to_copy from_entry to_it' then from_entry :: copy_loop rest to_it'
      else copy_loop rest to_it'
  end.

(** The entries CopyCFIDataBetweenModules adds to |to_module|, from the
    entries of the two modules. *)
Definition entries_to_copy (to_entries from_entries : list StackFrameEntry)
    : list StackFrameEntry :=
  copy_loop (sort_entries from_entries) (sort_entries to_entries).

(** The interface of google_breakpad::Module the tool uses. *)
Class ModuleInterface (M : Type) := {
  name : M -> string;
  os : M -> string;
  architecture : M -> string;
  identifier : M -> string;
  GetStackFrameEntries : M -> list StackFrameEntry;
  AddStackFrameEntry : M -> StackFrameEntry -> M
}.

(** CopyCFIDataBetweenModules. *)
Definition CopyCFIDataBetweenModules {M} `{ModuleInterface M} (to_module from_module : M) : M :=
  fold_left AddStackFrameEntry
    (entries_to_copy (GetStackFrameEntries to_module) (GetStackFrameEntries from_module))
    to_module.

(** struct Options, with its default member initialisers. *)
Record Options (ArchInfo : Type) := mkOptions {
  srcPath : string;
  dsymPath : string;
  arch : option ArchInfo;
  header_only : bool;
  cfi : bool;
  handle_inter_cu_refs : bool;
  handle_inlines : bool;
  enable_multiple : bool;
  module_name : string;
  prefer_extern_name : bool;
  report_warnings : bool
}.
Arguments mkOptions {ArchInfo}.
Arguments srcPath {ArchInfo}.
Arguments dsymPath {ArchInfo}.
Arguments arch {ArchInfo}.
Arguments header_only {ArchInfo}.
Arguments cfi {ArchInfo}.
Arguments handle_inter_cu_refs {ArchInfo}.
Arguments handle_inlines {ArchInfo}.
Arguments enable_multiple {ArchInfo}.
Arguments module_name {ArchInfo}.
Arguments prefer_extern_name {ArchInfo}.
Arguments report_warnings {ArchInfo}.

Definition default_options {ArchInfo} : Options ArchInfo :=
  mkOptions "" "" None false true true false false "" false false.

(** GetArchInfoFromName (common/mac/arch_utilities). *)
Class ArchUtilities (ArchInfo : Type) := {
  GetArchInfoFromName : string -> option ArchInfo
}.

(** How SetupOptions ends: exit(status), or the options filled in. *)
Inductive SetupResult (ArchInfo : Type) :=
| SetupExit (status : Z)
| SetupOk (options : Options ArchInfo).
Arguments SetupExit {ArchInfo}.
Arguments SetupOk {ArchInfo}.

Definition getopt_optstring : string := "iwa:g:crdm?hn:x".

(** Whether [c] is an option character of [s], and if so whether it takes an
    argument (a following ':'); ':' itself is never an option character. *)
Fixpoint option_spec (s : string) (c : ascii) : option bool :=
  match s with
  | EmptyString => None
  | String d r =>
      if Ascii.eqb d ":" then option_spec r c
      else if Ascii.eqb d c then
        Some (match r with String ":" _ => true | _ => false end)
      else option_spec r c
  end.

Section SetupOptions.
Context {ArchInfo : Type} `{ArchUtilities ArchInfo}.

(** The switch of SetupOptions on the character getopt returned. *)
Definition handle_option (ch : ascii) (optarg : string) (o : Options ArchInfo)
    : SetupResult ArchInfo :=
  let '(mkOptions src dsym ar hdr cf inter inln mult mname pref warn) := o in
  match ch with
  | "i"%char => SetupOk (mkOptions src dsym ar true cf inter inln mult mname pref warn)
  | "w"%char => SetupOk (mkOptions src dsym ar hdr cf inter inln mult mname pref true)
  | "a"%char =>
      match GetArchInfoFromName optarg with
      | None => SetupExit 1
      | Some arch_info =>
          SetupOk (mkOptions src dsym (Some arch_info) hdr cf inter inln mult mname pref warn)
      end
  | "g"%char => SetupOk (mkOptions src optarg ar hdr cf inter inln mult mname pref warn)
  | "c"%char => SetupOk (mkOptions src dsym ar hdr false inter inln mult mname pref warn)
  | "r"%char => SetupOk (mkOptions src dsym ar hdr cf false inln mult mname pref warn)
  | "d"%char => SetupOk (mkOptions src dsym ar hdr cf inter true mult mname pref warn)
  | "m"%char => SetupOk (mkOptions src dsym ar hdr cf inter inln true mname pref warn)
  | "n"%char => SetupOk (mkOptions src dsym ar hdr cf inter inln mult optarg pref warn)
  | "x"%char => SetupOk (mkOptions src dsym ar hdr cf inter inln mult mname true warn)
  | "?"%char | "h"%char => SetupExit 0
  | _ => SetupOk o
  end.

(** After the options: exactly one argument must remain, the Mach-O file. *)
Definition finish_options (o : Options ArchInfo) (rest : list string) : SetupResult ArchInfo :=
  match rest with
  | [file] =>
      let '(mkOptions _ dsym ar hdr cf inter inln mult mname pref warn) := o in
      SetupOk (mkOptions file dsym ar hdr cf inter inln mult mname pref warn)
  | _ => SetupExit 1
  end.

(** The getopt loop of SetupOptions over argv[optind..], with getopt as
    POSIX specifies it (and as the BSD libc of macOS implements it): option
    processing stops at the first argument that is not an option, at a lone
    "-", or after "--"; options may be grouped ("-cd"); an option argument
    is the rest of its group or else the next argument; an unknown option
    or a missing argument makes getopt return '?'.  GNU getopt would also
    permute later options forward; the properties below only use argument
    lists where the two agree. *)
Fixpoint setup_group (loop : list string -> Options ArchInfo -> SetupResult ArchInfo)
    (rest : list string) (c : ascii) (r : string) (o : Options ArchInfo) {struct r}
    : SetupResult ArchInfo :=
  match option_spec getopt_optstring c with
  | None => handle_option "?" "" o
  | Some false =>
      match handle_option c "" o with
      | SetupOk o' =>
          match r with
          | EmptyString => loop rest o'
          | String c' r' => setup_group loop rest c' r' o'
          end
      | e => e
      end
  | Some true =>
      match r with
      | EmptyString =>
          match rest with
          | [] => handle_option "?" "" o
          | optarg :: rest' =>
              match handle_option c optarg o with
              | SetupOk o' => loop rest' o'
              | e => e
              end
          end
      | _ =>
          match handle_option c r o with
          | SetupOk o' => loop rest o'
          | e => e
          end
      end
  end.

Fixpoint setup_loop (args : list string) (o : Options ArchInfo) {struct args}
    : SetupResult ArchInfo :=
  match args with
  | [] => finish_options o []
  | a :: rest =>
      if String.eqb a "--" then finish_options o rest
      else
        match a with
        | String "-" (String c r) => setup_group setup_loop rest c r o
        | _ => finish_options o args
        end
  end.

(** SetupOptions: getopt starts at argv[1]. *)
Definition SetupOptions (argv : list string) : SetupResult ArchInfo :=
  match argv with
  | [] => SetupExit 1
  | _ :: args => setup_loop args default_options
  end.

End SetupOptions.

(** The SymbolData flags (the bit values of the enumeration are defined
    outside these sources, so the flags are kept by name). *)
Record SymbolData := mkSymbolData {
  sd_inlines : bool;
  sd_cfi : bool;
  sd_symbols_and_files : bool
}.

(** The calls Start makes on its DumpSymbols object, with their results. *)
Inductive DSEvent (ArchInfo M : Type) :=
| EvCreate (symbol_data : SymbolData) (handle_inter_cu_refs enable_multiple : bool)
    (module_name : string) (prefer_extern_name : bool)
| EvSetReportWarnings (report_warnings : bool)
| EvRead (filename : string) (ok : bool)
| EvSetArchitecture (arch : ArchInfo) (ok : bool)
| EvWriteSymbolFileHeader (ok : bool)
| EvReadSymbolData (module : option M)
| EvWrite (module : M) (symbol_data : SymbolData) (ok : bool).
Arguments EvCreate {ArchInfo M}.
Arguments EvSetReportWarnings {ArchInfo M}.
Arguments EvRead {ArchInfo M}.
Arguments EvSetArchitecture {ArchInfo M}.
Arguments EvWriteSymbolFileHeader {ArchInfo M}.
Arguments EvReadSymbolData {ArchInfo M}.
Arguments EvWrite {ArchInfo M}.

(** DumpSymbols: the result of each call may depend on every call made
    before it. *)
Class DumpSymbolsInterface (ArchInfo M : Type) := {
  ds_Read : list (DSEvent ArchInfo M) -> string -> bool;
  ds_SetArchitecture : list (DSEvent ArchInfo M) -> ArchInfo -> bool;
  ds_WriteSymbolFileHeader : list (DSEvent ArchInfo M) -> bool;
  ds_ReadSymbolData : list (DSEvent ArchInfo M) -> option M;
  ds_Write : list (DSEvent ArchInfo M) -> M -> SymbolData -> bool
}.

Section Start.
Context {ArchInfo M : Type} `{ModuleInterface M} `{DumpSymbolsInterface ArchInfo M}.
Local Open Scope list_scope.

(** A computation over the DumpSymbols object: the calls made so far, in
    order. *)
Definition DS (A : Type) : Type := list (DSEvent ArchInfo M) -> A * list (DSEvent ArchInfo M).

Definition ds_ret {A} (a : A) : DS A := fun h => (a, h).
Definition ds_bind {A B} (m : DS A) (k : A -> DS B) : DS B :=
  fun h => let (a, h') := m h in k a h'.

Local Notation "x <- m ;; k" := (ds_bind m (fun x => k))
  (at level 61, m at next level, right associativity).

Definition call_Create (sd : SymbolData) (o : Options ArchInfo) : DS unit := fun h =>
  (tt, h ++ [EvCreate sd (handle_inter_cu_refs o) (enable_multiple o) (module_name o)
               (prefer_extern_name o)]).
Definition call_SetReportWarnings (b : bool) : DS unit := fun h =>
  (tt, h ++ [EvSetReportWarnings b]).
Definition call_Read (f : string) : DS bool := fun h =>
  let ok := ds_Read h f in (ok, h ++ [EvRead f ok]).
Definition call_SetArchitecture (a : ArchInfo) : DS bool := fun h =>
  let ok := ds_SetArchitecture h a in (ok, h ++ [EvSetArchitecture a ok]).
Definition call_WriteSymbolFileHeader : DS bool := fun h =>
  let ok := ds_WriteSymbolFileHeader h in (ok, h ++ [EvWriteSymbolFileHeader ok]).
Definition call_ReadSymbolData : DS (option M) := fun h =>
  let m := ds_ReadSymbolData h in (m, h ++ [EvReadSymbolData m]).
Definition call_Write (m : M) (sd : SymbolData) : DS bool := fun h =>
  let ok := ds_Write h m sd in (ok, h ++ [EvWrite m sd ok]).

(** The static SetArchitecture helper (its diagnostics are not modelled). *)
Definition SetArchitecture (a : ArchInfo) (filename : string) : DS bool :=
  call_SetArchitecture a.

(** [if (options.arch && !SetArchitecture(...)) return false;] *)
Definition arch_ok (o : Options ArchInfo) (filename : string) : DS bool :=
  match arch o with
  | None => ds_ret true
  | Some a => SetArchitecture a filename
  end.

Definition symbol_data_of (o : Options ArchInfo) : SymbolData :=
  mkSymbolData (handle_inlines o) (cfi o) true.

Definition split_module (o : Options ArchInfo) : bool :=
  negb (String.eqb (dsymPath o) "") && negb (String.eqb (srcPath o) "") && cfi o.

(** The check that the two halves of a split module are for the same code
    file. *)
Definition modules_match (o : Options ArchInfo) (module cfi_module : M) : bool :=
  let name_matches :=
    if negb (String.eqb (module_name o) "") then true
    else String.eqb (name cfi_module) (name module) in
  name_matches && String.eqb (os cfi_module) (os module) &&
  String.eqb (architecture cfi_module) (architecture module) &&
  String.eqb (identifier cfi_module) (identifier module).

(** Start. *)
Definition Start (o : Options ArchInfo) : DS bool :=
  let symbol_data := symbol_data_of o in
  let primary_file := if split_module o then dsymPath o else srcPath o in
  _ <- call_Create symbol_data o ;;
  _ <- call_SetReportWarnings (report_warnings o) ;;
  ok <- call_Read primary_file ;;
  if negb ok then ds_ret false else
  ok <- arch_ok o primary_file ;;
  if negb ok then ds_ret false else
  if header_only o then call_WriteSymbolFileHeader else
  rd <- call_ReadSymbolData ;;
  match rd with
  | None => ds_ret false
  | Some module =>
      if split_module o && String.eqb primary_file (dsymPath o) then
        ok <- call_Read (srcPath o) ;;
        if negb ok then ds_ret false else
        ok <- arch_ok o (srcPath o) ;;
        if negb ok then ds_ret false else
        rd' <- call_ReadSymbolData ;;
        match rd' with
        | None => ds_ret false
        | Some cfi_module =>
            if negb (modules_match o module cfi_module) then ds_ret false
            else call_Write (CopyCFIDataBetweenModules module cfi_module) symbol_data
        end
      else call_Write module symbol_data
  end.

End Start.

(** main: the exit status and the calls made on the DumpSymbols object. *)
Definition main {ArchInfo M} `{ArchUtilities ArchInfo} `{ModuleInterface M}
    `{DumpSymbolsInterface ArchInfo M} (argv : list string) : Z * list (DSEvent ArchInfo M) :=
  match SetupOptions argv with
  | SetupExit status => (status, [])
  | SetupOk options =>
      let (result, calls) := Start options [] in
      (if result then 0 else 1, calls)
  end.

(** ** Auxiliary definitions for the properties of dump_syms_tool.cc *)

(** Two STACK CFI entries in address order. *)
Definition addr_le (a b : StackFrameEntry) : Prop := cfi_address a <= cfi_address b.

(** No entry of [to_data] starts within [e]: every one starts below [e], or
    after both its start and its end. *)
Definition no_to_entry_within (to_data : list StackFrameEntry) (e : StackFrameEntry) : bool :=
  forallb (fun t => (cfi_address t <? cfi_address e) ||
                    ((cfi_address e <? cfi_address t) && (from_entry_end e <? cfi_address t))) to_data.

(** The flag options of SetupOptions, those without an argument. *)
Definition flag_chars : list ascii := ["i"; "w"; "c"; "r"; "d"; "m"; "x"]%char.

Definition flag_set (flags : list ascii) (c : ascii) : bool := existsb (Ascii.eqb c) flags.

(** The options after the flags [flags] have been handled. *)
Definition apply_flags {A} (flags : list ascii) (o : Options A) : Options A :=
  mkOptions (srcPath o) (dsymPath o) (arch o)
    (header_only o || flag_set flags "i") (cfi o && negb (flag_set flags "c"))
    (handle_inter_cu_refs o && negb (flag_set flags "r")) (handle_inlines o || flag_set flags "d")
    (enable_multiple o || flag_set flags "m") (module_name o)
    (prefer_extern_name o || flag_set flags "x") (report_warnings o || flag_set flags "w").

(** Kinds of DumpSymbols calls. *)
Definition is_write {A M} (e : DSEvent A M) : bool :=
  match e with EvWriteSymbolFileHeader _ | EvWrite _ _ _ => true | _ => false end.

Definition write_succeeded {A M} (e : DSEvent A M) : bool :=
  match e with EvWriteSymbolFileHeader ok | EvWrite _ _ ok => ok | _ => false end.

Definition is_read {A M} (e : DSEvent A M) : bool :=
  match e with EvRead _ _ => true | _ => false end.

Definition is_read_symbol_data {A M} (e : DSEvent A M) : bool :=
  match e with EvReadSymbolData _ => true | _ => false end.

(** ** Example implementations of the interfaces

    A module made of its four identifying strings and its CFI entries,
    AddStackFrameEntry appending; a DumpSymbols whose every call succeeds,
    whose first ReadSymbolData gives the dSYM module and later ones the
    Mach-O module; and an architecture table. *)
Record ExampleModule := mkExampleModule {
  em_name : string;
  em_os : string;
  em_architecture : string;
  em_identifier : string;
  em_entries : list StackFrameEntry
}.

Definition example_module_interface : ModuleInterface ExampleModule := {|
  name := em_name;
  os := em_os;
  architecture := em_architecture;
  identifier := em_identifier;
  GetStackFrameEntries := em_entries;
  AddStackFrameEntry m e :=
    mkExampleModule (em_name m) (em_os m) (em_architecture m) (em_identifier m)
      (em_entries m ++ [e])%list
|}.

Definition example_dsym_module : ExampleModule :=
  mkExampleModule "foo" "mac" "x86_64" "4C4C44" [mkCfiInit 0x1000 0x10 [] []].

Definition example_macho_module : ExampleModule :=
  mkExampleModule "foo" "mac" "x86_64" "4C4C44"
    [mkCfiInit 0x1008 0x10 [] []; mkCfiInit 0x2000 0x20 [] []].

Definition example_dump_symbols : DumpSymbolsInterface string ExampleModule := {|
  ds_Read _ _ := true;
  ds_SetArchitecture _ _ := true;
  ds_WriteSymbolFileHeader _ := true;
  ds_ReadSymbolData h :=
    Some (if existsb is_read_symbol_data h then example_macho_module else example_dsym_module);
  ds_Write _ _ _ := true
|}.

Definition example_arch_utilities : ArchUtilities string := {|
  GetArchInfoFromName n :=
    if existsb (String.eqb n) ["i386"; "x86_64"; "arm64"] then Some n else None
|}.

Definition example_Start (o : Options string) : bool * list (DSEvent string ExampleModule) :=
  @Start string ExampleModule example_module_interface example_dump_symbols o [].

(** * Properties *)

(** ** The model against the unit test *)
(** TestLoadAndResolve, the source-line part. *)
Lemma test_load_and_resolve_lines :
  map (fun ip => frame_summary (fst (FillSourceLineInfo resolver12 (at_ip ip module1) [])))
    [0x1000; 0x800; 0x1280; 0x1380; 0x2900; 0x4000]
  = [("Function1_1", 0x1000, "file1_1.cc", 44, 0x1000); ("", 0, "", 0, 0);
     ("Function1_3", 0x1200, "", 0, 0); ("Function1_4", 0x1300, "", 0, 0);
     ("PublicSymbol", 0x2900, "", 0, 0); ("LargeFunction", 0x4000, "", 0, 0)]
  /\
  map (fun ip => frame_summary (fst (FillSourceLineInfo resolver12 (at_ip ip module2) [])))
    [0x2181; 0x216f; 0x219f; 0x21a0]
  = [("Function2_2", 0x2170, "file2_2.cc", 21, 0x2180); ("Public2_1", 0x2160, "", 0, 0);
     ("", 0, "", 0, 0); ("Public2_2", 0x21a0, "", 0, 0)].
Proof. split; vm_compute; reflexivity. Qed.

(** TestLoadAndResolve, the stack-walking part: the caller registers agree
    with the expected ones at each of the six addresses, for the callee
    registers the test sets there. *)
Lemma test_load_and_resolve_cfi :
  let r2 := ("$esp", 0x10014) :: callee_registers in
  let r3 := ("$ebp", 0x10014) :: r2 in
  let r4 := ("$ebx", 0x6864f054) :: r3 in
  let r5 := ("$esi", 0x6285f79a) :: r4 in
  let r6 := ("$edi", 0x64061449) :: r5 in
  FindCFIFrameInfo resolver12 (at_ip 0x3d3f module1) = None /\
  FindCFIFrameInfo resolver12 (at_ip 0x3e9f module1) = None /\
  forallb (fun '(ip, r) => test_cfi_point ip r)
    [(0x3d40, callee_registers); (0x3d41, r2); (0x3d43, r3); (0x3d54, r4);
     (0x3d5a, r5); (0x3d84, r6)] = true.
Proof. vm_compute. repeat split. Qed.

(** TestLoadAndResolveOldInlines and TestLoadAndResolveNewInlines. *)
Lemma test_load_and_resolve_inlines :
  (let '(fr, news) := FillSourceLineInfo inline_old_store (at_ip 0x161b6 linux_inline) [] in
   (frame_summary fr, map frame_summary news, map trust news))
  = (("main", 0x15b30, "linux_inline.cpp", 42, 0x161b6),
     [("func()", 0x15b83, "linux_inline.cpp", 27, 0x161b6);
      ("bar()", 0x15b72, "linux_inline.cpp", 32, 0x161b6);
      ("foo()", 0x15b45, "linux_inline.cpp", 39, 0x161b6)],
     [FRAME_TRUST_INLINE; FRAME_TRUST_INLINE; FRAME_TRUST_INLINE])
  /\
  (let '(fr, news) := FillSourceLineInfo inline_new_store (at_ip 0x161b6 linux_inline) [] in
   (frame_summary fr, map frame_summary news, map trust news))
  = (("main", 0x15b30, "a.cpp", 42, 0x161b6),
     [("func()", 0x15b83, "linux_inline.cpp", 27, 0x161b6);
      ("bar()", 0x15b72, "c.cpp", 32, 0x161b6);
      ("foo()", 0x15b45, "b.cpp", 39, 0x161b6)],
     [FRAME_TRUST_INLINE; FRAME_TRUST_INLINE; FRAME_TRUST_INLINE]).
Proof. split; vm_compute; reflexivity. Qed.

(** ** Lemmas about the model *)

Lemma find_none_forall {A} (f : A -> bool) (l : list A) :
  find f l = None <-> forall a, In a l -> f a = false.
Proof.
  induction l as [|a l IH]; simpl; split; intros H.
  - intros _ [].
  - reflexivity.
  - destruct (f a) eqn:E; [discriminate|].
    intros b [<-|Hb]; [exact E|]. apply IH; assumption.
  - rewrite (H a (or_introl eq_refl)). apply IH. intros b Hb. apply H; auto.
Qed.

Lemma find_some_exists {A} (f : A -> bool) (l : list A) :
  (exists a, In a l /\ f a = true) -> exists a, find f l = Some a.
Proof.
  intros [a [Ha Hf]]. destruct (find f l) as [b|] eqn:E; [eauto|].
  rewrite find_none_forall in E. rewrite (E a Ha) in Hf. discriminate.
Qed.


Lemma fold_max_spec {A B} (g : A -> B) (kb : B -> Z) (x : Z) (l : list A) :
  forall acc0, (forall q, acc0 = Some q -> kb q <= x) ->
  match fold_left (step_max g kb x) l acc0 with
  | Some q =>
      kb q <= x /\ (acc0 = Some q \/ exists a, In a l /\ g a = q) /\
      (forall a, In a l -> kb (g a) <= x -> kb (g a) <= kb q) /\
      (forall q0, acc0 = Some q0 -> kb q0 <= kb q)
  | None => acc0 = None /\ forall a, In a l -> x < kb (g a)
  end.
Proof.
  induction l as [|a l IH]; intros acc0 Hacc; simpl.
  - destruct acc0 as [q|].
    + repeat split; auto; [intros a []|intros q0 H; injection H as ->; lia].
    + split; [reflexivity|intros a []].
  - set (acc1 := step_max g kb x acc0 a).
    assert (H1 : forall q, acc1 = Some q -> kb q <= x).
    { unfold acc1, step_max. intros q.
      destruct (kb (g a) <=? x) eqn:E1.
      - destruct acc0 as [q0|].
        + destruct (kb q0 <? kb (g a)); intros H; injection H as <-;
            [lia | apply Hacc; reflexivity].
        + intros H; injection H as <-; lia.
      - apply Hacc. }
    specialize (IH acc1 H1).
    destruct (fold_left (step_max g kb x) l acc1) as [q|] eqn:Ef.
    + destruct IH as (Hq & Horig & Hmax & Hacc1).
      split; [exact Hq|]. split; [|split].
      * destruct Horig as [E|(b & Hb & Hgb)].
        -- unfold acc1, step_max in E.
           destruct (kb (g a) <=? x); [|left; exact E].
           destruct acc0 as [q0|]; [destruct (kb q0 <? kb (g a))|];
             [right; exists a; split; [left; reflexivity|congruence]
             | left; exact E
             | right; exists a; split; [left; reflexivity|congruence]].
        -- right. exists b. split; [right; exact Hb|exact Hgb].
      * intros b [Eab|Hb] Hbx; [subst b|apply Hmax; assumption].
        unfold acc1, step_max in Hacc1. apply Z.leb_le in Hbx. rewrite Hbx in Hacc1.
        destruct acc0 as [q0|].
        -- destruct (kb q0 <? kb (g a)) eqn:Elt.
           ++ apply Hacc1. reflexivity.
           ++ apply Z.ltb_ge in Elt. specialize (Hacc1 q0 eq_refl). lia.
        -- apply Hacc1. reflexivity.
      * intros q0 ->. unfold acc1, step_max in Hacc1.
        destruct (kb (g a) <=? x).
        -- destruct (kb q0 <? kb (g a)) eqn:Elt.
           ++ specialize (Hacc1 _ eq_refl). apply Z.ltb_lt in Elt. lia.
           ++ apply Hacc1. reflexivity.
        -- apply Hacc1. reflexivity.
    + destruct IH as [Hn Hall]. unfold acc1, step_max in Hn.
      destruct (kb (g a) <=? x) eqn:E1.
      * destruct acc0 as [q0|]; [destruct (kb q0 <? kb (g a))|]; discriminate.
      * split; [exact Hn|]. intros b [Eab|Hb]; [subst b; apply Z.leb_gt; exact E1|apply Hall; exact Hb].
Qed.

Lemma find_public_fold (m : Module) (x : Z) :
  find_public m x = fold_left (step_max (fun p => p) pub_address x) (public_symbols m) None.
Proof. reflexivity. Qed.

Lemma nearest_function_below_fold (m : Module) (x : Z) :
  nearest_function_below m x = fold_left (step_max fe_func func_address x) (functions m) None.
Proof. reflexivity. Qed.

Lemma FillSourceLineInfo_loaded (st : Store) (fr : StackFrame) (cm : CodeModule)
    (m : Module) (inl : list StackFrame) :
  module fr = Some cm -> find_module st (code_file cm) = Some m ->
  FillSourceLineInfo st fr inl =
  (fst (LookupAddress m cm fr), (inl ++ snd (LookupAddress m cm fr))%list).
Proof.
  intros Hm Hf. unfold FillSourceLineInfo. rewrite Hm, Hf.
  destruct (LookupAddress m cm fr); reflexivity.
Qed.

Lemma LookupAddress_function (m : Module) (cm : CodeModule) (fr : StackFrame)
    (fe : FunctionEntry) :
  find_function m (instruction fr - base_address cm) = Some fe ->
  let fr' := fst (LookupAddress m cm fr) in
  function_name fr' = func_name (fe_func fe) /\
  function_base fr' = base_address cm + func_address (fe_func fe) /\
  is_multiple fr' = func_multiple (fe_func fe).
Proof.
  intros Hfe. unfold LookupAddress. rewrite Hfe.
  destruct (inline_chain fe _) as [|i0 rest];
    [destruct (option_map _ _) as [[fl ln]|] | destruct (callsite_loc _ _ _)];
    repeat split.
Qed.

Lemma LookupAddress_no_function (m : Module) (cm : CodeModule) (fr : StackFrame) (x : Z) :
  x = instruction fr - base_address cm ->
  find_function m x = None ->
  LookupAddress m cm fr =
  match find_public m x with
  | Some p =>
      if match nearest_function_below m x with
         | Some g => func_address g <? pub_address p
         | None => true
         end
      then (mkFrame (instruction fr) (module fr) (pub_name p) (base_address cm + pub_address p)
              "" 0 0 (pub_multiple p) (trust fr), [])
      else (fr, [])
  | None => (fr, [])
  end.
Proof. intros -> Hn. unfold LookupAddress. rewrite Hn. reflexivity. Qed.

(** C3 (amended): the frame gets the function whose interval contains the
    address when there is one; otherwise it gets the public symbol with the
    greatest address at or below the address, provided no function starts
    between that symbol and the address, and else stays unchanged; on
    module2 the query at 0x219f, where Function2_2 starts above Public2_1,
    returns no symbol. *)
Theorem C3_resolve_function_or_public (st : Store) (fr : StackFrame) (cm : CodeModule)
    (m : Module) (Hmod : module fr = Some cm) (Hfind : find_module st (code_file cm) = Some m) :
  let x := instruction fr - base_address cm in
  let fr' := fst (FillSourceLineInfo st fr []) in
  ((exists fe, In fe (functions m) /\ func_contains (fe_func fe) x = true) ->
   exists fe, In fe (functions m) /\ func_contains (fe_func fe) x = true /\
     function_name fr' = func_name (fe_func fe) /\
     function_base fr' = base_address cm + func_address (fe_func fe)) /\
  ((forall fe, In fe (functions m) -> func_contains (fe_func fe) x = false) ->
   forall p, In p (public_symbols m) -> pub_address p <= x ->
   (forall q, In q (public_symbols m) -> pub_address q <= x -> pub_address q <= pub_address p) ->
   (forall fe, In fe (functions m) -> func_address (fe_func fe) <= x ->
      func_address (fe_func fe) < pub_address p) ->
   exists q, In q (public_symbols m) /\ pub_address q = pub_address p /\
     function_name fr' = pub_name q /\ function_base fr' = base_address cm + pub_address p /\
     source_file_name fr' = "" /\ source_line fr' = 0) /\
  ((forall fe, In fe (functions m) -> func_contains (fe_func fe) x = false) ->
   (forall p, In p (public_symbols m) -> pub_address p <= x ->
      exists fe, In fe (functions m) /\
        pub_address p <= func_address (fe_func fe) /\ func_address (fe_func fe) <= x) ->
   fr' = fr) /\
  fst (FillSourceLineInfo resolver12 (at_ip 0x219f module2) []) = at_ip 0x219f module2.
Proof.
  intros x fr'. unfold fr'. rewrite (FillSourceLineInfo_loaded st fr cm m [] Hmod Hfind).
  cbn [fst]. split; [|split; [|split]].
  - intros Hex. destruct (find_some_exists _ _ Hex) as [fe Hfe].
    exists fe. apply find_some in Hfe as Hin. destruct Hin as [Hin Hc].
    destruct (LookupAddress_function m cm fr fe Hfe) as (Hn & Hb & _).
    repeat split; assumption.
  - intros Hnone p Hp Hpx Hpmax Hblock.
    assert (Hff : find_function m x = None) by (apply find_none_forall; exact Hnone).
    rewrite (LookupAddress_no_function m cm fr x eq_refl Hff).
    pose proof (fold_max_spec (fun p => p) pub_address x (public_symbols m) None) as Hpub.
    rewrite <- find_public_fold in Hpub.
    destruct (find_public m x) as [q|] eqn:Eq.
    2:{ destruct (Hpub (fun q H => ltac:(discriminate))) as [_ Hall].
        specialize (Hall p Hp). lia. }
    destruct (Hpub (fun q H => ltac:(discriminate))) as (Hqx & Horig & Hmax & _).
    destruct Horig as [Horig|(q' & Hq' & <-)]; [discriminate|].
    assert (Heq : pub_address q' = pub_address p).
    { specialize (Hmax p Hp Hpx). specialize (Hpmax q' Hq' Hqx). lia. }
    pose proof (fold_max_spec fe_func func_address x (functions m) None) as Hfun.
    rewrite <- nearest_function_below_fold in Hfun.
    destruct (nearest_function_below m x) as [g|] eqn:Eg.
    + destruct (Hfun (fun q H => ltac:(discriminate))) as (Hgx & Hgorig & _).
      destruct Hgorig as [Hg|(fe & Hfe & <-)]; [discriminate|].
      specialize (Hblock fe Hfe Hgx).
      replace (func_address (fe_func fe) <? pub_address q') with true
        by (symmetry; apply Z.ltb_lt; lia).
      exists q'. repeat split; auto. simpl. congruence.
    + exists q'. repeat split; auto. simpl. congruence.
  - intros Hnone Hblocked.
    assert (Hff : find_function m x = None) by (apply find_none_forall; exact Hnone).
    rewrite (LookupAddress_no_function m cm fr x eq_refl Hff).
    pose proof (fold_max_spec (fun p => p) pub_address x (public_symbols m) None) as Hpub.
    rewrite <- find_public_fold in Hpub.
    destruct (find_public m x) as [q|] eqn:Eq; [|reflexivity].
    destruct (Hpub (fun q H => ltac:(discriminate))) as (Hqx & Horig & _).
    destruct Horig as [Horig|(q' & Hq' & <-)]; [discriminate|].
    destruct (Hblocked q' Hq' Hqx) as (fe & Hfe & Hlo & Hhi).
    pose proof (fold_max_spec fe_func func_address x (functions m) None) as Hfun.
    rewrite <- nearest_function_below_fold in Hfun.
    destruct (nearest_function_below m x) as [g|] eqn:Eg.
    + destruct (Hfun (fun q H => ltac:(discriminate))) as (Hgx & _ & Hgmax & _).
      specialize (Hgmax fe Hfe Hhi).
      replace (func_address g <? pub_address q') with false
        by (symmetry; apply Z.ltb_ge; lia).
      reflexivity.
    + destruct (Hfun (fun q H => ltac:(discriminate))) as [_ Hall].
      specialize (Hall fe Hfe). lia.
  - vm_compute. reflexivity.
Qed.

Lemma chain_from_levels (fe : FunctionEntry) (x : Z) (fuel : nat) :
  forall level j i, nth_error (chain_from fuel fe level x) j = Some i ->
  inl_nest_level i = level + Z.of_nat j.
Proof.
  induction fuel as [|fuel IH]; intros level j i H; simpl in H.
  - destruct j; discriminate.
  - destruct (select_inline fe level x) as [i0|] eqn:Es; [|destruct j; discriminate].
    destruct j as [|j]; simpl in H.
    + injection H as <-. unfold select_inline in Es. apply find_some in Es.
      destruct Es as [_ Hb]. apply andb_true_iff in Hb. destruct Hb as [Hl _].
      apply Z.eqb_eq in Hl. lia.
    + apply IH in H. lia.
Qed.

Lemma inline_chain_levels (fe : FunctionEntry) (x : Z) (j : nat) (i : Inline) :
  nth_error (inline_chain fe x) j = Some i -> inl_nest_level i = Z.of_nat j.
Proof. intros H. apply chain_from_levels in H. lia. Qed.

Lemma with_locations_fst (m : Module) (lnloc : option (string * Z)) (chain : list Inline) :
  map fst (with_locations m lnloc chain) = chain.
Proof. induction chain as [|i rest IH]; simpl; [reflexivity|now rewrite IH]. Qed.

Lemma with_locations_nth (m : Module) (lnloc : option (string * Z)) (chain : list Inline) :
  forall j i, nth_error chain j = Some i ->
  nth_error (with_locations m lnloc chain) j =
  Some (i, match nth_error chain (S j) with
           | Some i' => callsite_loc m i' (origin_file_of m i)
           | None => match lnloc with Some l => l | None => (origin_file_of m i, 0) end
           end).
Proof.
  induction chain as [|i0 rest IH]; intros j i H; [destruct j; discriminate|].
  destruct j as [|j]; simpl in H |- *.
  - injection H as <-. destruct rest; reflexivity.
  - apply IH. exact H.
Qed.

Lemma Forall2_map_fst {A B C} (P : A -> C -> Prop) (h : A * B -> C) (l : list (A * B)) :
  (forall a, In a l -> P (fst a) (h a)) -> Forall2 P (map fst l) (map h l).
Proof.
  induction l as [|a l IH]; intros H; simpl; constructor.
  - apply H. left. reflexivity.
  - apply IH. intros b Hb. apply H. right. exact Hb.
Qed.

Lemma LookupAddress_inlines (m : Module) (cm : CodeModule) (fr : StackFrame)
    (fe : FunctionEntry) (x : Z) :
  x = instruction fr - base_address cm ->
  find_function m x = Some fe ->
  let ln := find_line fe x in
  let lnloc := option_map (fun l => (file_name m (line_file l), line_number l)) ln in
  let lbase := match ln with Some l => base_address cm + line_address l | None => 0 end in
  snd (LookupAddress m cm fr) =
    map (mk_inline_frame m cm x (instruction fr) lbase)
      (rev (with_locations m lnloc (inline_chain fe x))) /\
  (source_file_name (fst (LookupAddress m cm fr)), source_line (fst (LookupAddress m cm fr))) =
    match inline_chain fe x with
    | i0 :: _ => callsite_loc m i0 (match lnloc with Some (fl, _) => fl | None => "" end)
    | [] => match lnloc with Some l => l | None => ("", 0) end
    end.
Proof.
  intros -> Hfe ln lnloc lbase. unfold LookupAddress. rewrite Hfe. fold ln lnloc lbase.
  destruct (inline_chain fe _) as [|i0 rest].
  - destruct lnloc as [[fl n]|]; split; reflexivity.
  - destruct (callsite_loc _ _ _) as [fl n]. split; reflexivity.
Qed.

Lemma mk_inline_frame_fields (m : Module) (cm : CodeModule) (x ip lbase : Z)
    (a : Inline * (string * Z)) :
  let f := mk_inline_frame m cm x ip lbase a in
  function_name f = origin_name_of m (fst a) /\ trust f = FRAME_TRUST_INLINE /\
  (source_file_name f, source_line f) = snd a /\ source_line_base f = lbase.
Proof. destruct a as [i [fl n]]. repeat split. Qed.

(** C9: the inline frames appended for a resolved address are the inline
    chain innermost first: the frame at index j is the inline of nest level
    (length - 1 - j), so the levels strictly decrease along the list and the
    last one is the level-0 inline. *)
Theorem C9_inline_frames_innermost_first (st : Store) (fr : StackFrame) (cm : CodeModule)
    (m : Module) (fe : FunctionEntry)
    (Hmod : module fr = Some cm) (Hfind : find_module st (code_file cm) = Some m)
    (Hfe : find_function m (instruction fr - base_address cm) = Some fe) :
  let x := instruction fr - base_address cm in
  let chain := inline_chain fe x in
  let news := snd (FillSourceLineInfo st fr []) in
  Forall2 (fun i f => function_name f = origin_name_of m i /\ trust f = FRAME_TRUST_INLINE)
    (rev chain) news /\
  (forall j i, nth_error (rev chain) j = Some i ->
     inl_nest_level i = Z.of_nat (length chain - 1 - j)) /\
  (forall j k i i', (j < k)%nat -> nth_error (rev chain) j = Some i ->
     nth_error (rev chain) k = Some i' -> inl_nest_level i' < inl_nest_level i) /\
  (forall d, chain <> [] -> inl_nest_level (last (rev chain) d) = 0).
Proof.
  intros x chain news.
  assert (Hlev : forall j i, nth_error (rev chain) j = Some i ->
            inl_nest_level i = Z.of_nat (length chain - 1 - j)).
  { intros j i H. rewrite nth_error_rev in H.
    destruct (Nat.ltb j (length chain)) eqn:Ej; [|discriminate].
    apply inline_chain_levels in H. rewrite H. f_equal. lia. }
  split; [|split; [exact Hlev|split]].
  - unfold news. rewrite (FillSourceLineInfo_loaded st fr cm m [] Hmod Hfind). cbn [snd app].
    destruct (LookupAddress_inlines m cm fr fe x eq_refl Hfe) as [-> _].
    unfold chain. rewrite <- (with_locations_fst m
      (option_map (fun l => (file_name m (line_file l), line_number l)) (find_line fe x))
      (inline_chain fe x)) at 1.
    rewrite <- map_rev. apply Forall2_map_fst. intros a _.
    destruct (mk_inline_frame_fields m cm x (instruction fr)
      (match find_line fe x with Some l => base_address cm + line_address l | None => 0 end) a)
      as (H1 & H2 & _).
    split; assumption.
  - intros j k i i' Hjk Hj Hk.
    assert (Hkl : (k < length (rev chain))%nat)
      by (apply nth_error_Some; rewrite Hk; discriminate).
    rewrite length_rev in Hkl.
    rewrite (Hlev j i Hj), (Hlev k i' Hk). lia.
  - intros i Hne.
    assert (Hn : (0 < length chain)%nat) by (destruct chain; [congruence|simpl; lia]).
    assert (Hl : nth_error (rev chain) (length chain - 1) = Some (last (rev chain) i)).
    { rewrite nth_error_rev. replace (Nat.ltb (length chain - 1) (length chain)) with true
        by (symmetry; apply Nat.ltb_lt; lia).
      replace (length chain - S (length chain - 1))%nat with 0%nat by lia.
      destruct chain as [|c0 cs]; [congruence|]. simpl.
      rewrite last_last. reflexivity. }
    rewrite (Hlev _ _ Hl). replace (length chain - 1 - (length chain - 1))%nat with 0%nat by lia.
    reflexivity.
Qed.

(** C4 (amended): the function frame reports the call site of the level-0
    inline (the line record only when there is no inline), the inline frame
    at level L reports the call site of the inline at level L+1, and the
    innermost inline frame reports the line record at the address; on the
    new-format input at 0x161b6 this gives main at a.cpp:42, then func() at
    linux_inline.cpp:27, bar() at c.cpp:32 and foo() at b.cpp:39. *)
Theorem C4_inline_frame_locations (st : Store) (fr : StackFrame) (cm : CodeModule)
    (m : Module) (fe : FunctionEntry)
    (Hmod : module fr = Some cm) (Hfind : find_module st (code_file cm) = Some m)
    (Hfe : find_function m (instruction fr - base_address cm) = Some fe) :
  let x := instruction fr - base_address cm in
  let chain := inline_chain fe x in
  let lnloc := option_map (fun l => (file_name m (line_file l), line_number l)) (find_line fe x) in
  let fr' := fst (FillSourceLineInfo st fr []) in
  let outer_first := rev (snd (FillSourceLineInfo st fr [])) in
  (chain = [] ->
   (source_file_name fr', source_line fr') = match lnloc with Some l => l | None => ("", 0) end) /\
  (forall i0, nth_error chain 0 = Some i0 ->
   (source_file_name fr', source_line fr') =
     callsite_loc m i0 (match lnloc with Some (fl, _) => fl | None => "" end)) /\
  (forall j i, nth_error chain j = Some i ->
   inl_nest_level i = Z.of_nat j /\
   exists f, nth_error outer_first j = Some f /\ function_name f = origin_name_of m i /\
     (source_file_name f, source_line f) =
       match nth_error chain (S j) with
       | Some i' => callsite_loc m i' (origin_file_of m i)
       | None => match lnloc with Some l => l | None => (origin_file_of m i, 0) end
       end) /\
  (let '(g, news) := FillSourceLineInfo inline_new_store (at_ip 0x161b6 linux_inline) [] in
   (function_name g, source_file_name g, source_line g,
    map (fun f => (function_name f, source_file_name f, source_line f)) news))
  = ("main", "a.cpp", 42,
     [("func()", "linux_inline.cpp", 27); ("bar()", "c.cpp", 32); ("foo()", "b.cpp", 39)]).
Proof.
  intros x chain lnloc fr' outer_first.
  unfold fr', outer_first.
  rewrite (FillSourceLineInfo_loaded st fr cm m [] Hmod Hfind). cbn [fst snd app].
  destruct (LookupAddress_inlines m cm fr fe x eq_refl Hfe) as [Hnews Hmain].
  fold lnloc in Hnews, Hmain. fold chain in Hnews, Hmain.
  split; [|split; [|split]].
  - intros Hc. rewrite Hmain, Hc. reflexivity.
  - intros i0 H0. rewrite Hmain. destruct chain as [|c0 cs]; [discriminate|].
    injection H0 as ->. reflexivity.
  - intros j i Hj. split; [exact (inline_chain_levels fe x j i Hj)|].
    rewrite Hnews, map_rev, rev_involutive, nth_error_map.
    rewrite (with_locations_nth m lnloc chain j i Hj). cbn [option_map].
    eexists. split; [reflexivity|].
    match goal with |- context [mk_inline_frame m cm x ?ip ?lb ?a] =>
      destruct (mk_inline_frame_fields m cm x ip lb a) as (H1 & _ & H3 & _) end.
    split; [exact H1|exact H3].
  - vm_compute. reflexivity.
Qed.

(** C4 counterexample: on the new-format input at 0x161b6 main's line record
    is linux_inline.cpp:27, but the function frame reports a.cpp:42. *)
Lemma C4_function_frame_not_line_record :
  line_record_loc inline_new_built 0x161b6 = Some ("linux_inline.cpp", 27) /\
  (let g := fst (FillSourceLineInfo inline_new_store (at_ip 0x161b6 linux_inline) []) in
   (source_file_name g, source_line g)) = ("a.cpp", 42).
Proof. split; vm_compute; reflexivity. Qed.

Lemma FindWindowsFrameInfo_loaded (st : Store) (fr : StackFrame) (cm : CodeModule) (m : Module) :
  module fr = Some cm -> find_module st (code_file cm) = Some m ->
  FindWindowsFrameInfo st fr =
  find (fun w => in_range (wfi_rva w) (wfi_code_size w) (instruction fr - base_address cm))
    (windows_frame_info m).
Proof. intros Hm Hf. unfold FindWindowsFrameInfo. rewrite Hm, Hf. reflexivity. Qed.

Lemma FindCFIFrameInfo_loaded (st : Store) (fr : StackFrame) (cm : CodeModule) (m : Module) :
  module fr = Some cm -> find_module st (code_file cm) = Some m ->
  FindCFIFrameInfo st fr =
  option_map (fun c => rules_at c (instruction fr - base_address cm))
    (find_cfi_init m (instruction fr - base_address cm)).
Proof. intros Hm Hf. unfold FindCFIFrameInfo. rewrite Hm, Hf. reflexivity. Qed.

(** C5 (amended): FindWindowsFrameInfo returns a STACK WIN record whose range
    contains the address, and none exactly when no record's range contains
    it; on module1 it returns a record at 0x1280 (type UNKNOWN) and at 0x1380
    (type FRAME_DATA), and none at 0x2000. *)
Theorem C5_windows_frame_info_lookup (st : Store) (fr : StackFrame) (cm : CodeModule)
    (m : Module) (Hmod : module fr = Some cm) (Hfind : find_module st (code_file cm) = Some m) :
  let x := instruction fr - base_address cm in
  (forall w, FindWindowsFrameInfo st fr = Some w ->
     In w (windows_frame_info m) /\ in_range (wfi_rva w) (wfi_code_size w) x = true) /\
  (FindWindowsFrameInfo st fr = None <->
     forall w, In w (windows_frame_info m) -> in_range (wfi_rva w) (wfi_code_size w) x = false) /\
  option_map type_ (FindWindowsFrameInfo resolver12 (at_ip 0x1280 module1))
    = Some STACK_INFO_UNKNOWN /\
  option_map type_ (FindWindowsFrameInfo resolver12 (at_ip 0x1380 module1))
    = Some STACK_INFO_FRAME_DATA /\
  FindWindowsFrameInfo resolver12 (at_ip 0x2000 module1) = None.
Proof.
  intros x. rewrite (FindWindowsFrameInfo_loaded st fr cm m Hmod Hfind).
  split; [|split; [apply find_none_forall|]].
  - intros w Hw. apply find_some in Hw. exact Hw.
  - repeat split; vm_compute; reflexivity.
Qed.

(** C5 counterexample: at 0x1280 and 0x1380, inside functions of module1,
    FindWindowsFrameInfo does return a record. *)
Lemma C5_frame_info_at_0x1280_and_0x1380 :
  find_function module1_built 0x1280 <> None /\
  FindWindowsFrameInfo resolver12 (at_ip 0x1280 module1) <> None /\
  find_function module1_built 0x1380 <> None /\
  FindWindowsFrameInfo resolver12 (at_ip 0x1380 module1) <> None.
Proof. repeat split; vm_compute; discriminate. Qed.

(** C6 (amended): the CFI lookup returns none exactly when no CFI INIT's
    range contains the address; an INIT never contains its address - 1 or
    its address + size, so the lookup returns none there unless another
    INIT covers that address; on module1 it returns none at 0x3d3f and
    0x3e9f. *)
Theorem C6_cfi_lookup_outside_inits (st : Store) (fr : StackFrame) (cm : CodeModule)
    (m : Module) (Hmod : module fr = Some cm) (Hfind : find_module st (code_file cm) = Some m) :
  let x := instruction fr - base_address cm in
  (FindCFIFrameInfo st fr = None <->
     forall c, In c (cfi_initial_rules m) -> in_range (cfi_address c) (cfi_size c) x = false) /\
  (forall c, In c (cfi_initial_rules m) ->
     x = cfi_address c - 1 \/ x = cfi_address c + cfi_size c ->
     in_range (cfi_address c) (cfi_size c) x = false) /\
  FindCFIFrameInfo resolver12 (at_ip 0x3d3f module1) = None /\
  FindCFIFrameInfo resolver12 (at_ip 0x3e9f module1) = None.
Proof.
  intros x. rewrite (FindCFIFrameInfo_loaded st fr cm m Hmod Hfind).
  split; [|split].
  - unfold find_cfi_init. fold x. split.
    + intros Hn. apply find_none_forall. destruct (find _ _); [discriminate|reflexivity].
    + intros Hn. apply find_none_forall in Hn. rewrite Hn. reflexivity.
  - intros c _ Hx. unfold in_range, end_of.
    destruct Hx as [-> | ->]; apply andb_false_iff; [left|right];
      [apply Z.leb_gt | apply Z.ltb_ge]; lia.
  - split; vm_compute; reflexivity.
Qed.

(** C6 counterexample: with INITs [0x100, 0x110) and [0x110, 0x120), the
    lookup at 0x100 + 0x10 and at 0x110 - 1 returns rules. *)
Lemma C6_abutting_inits :
  map (fun c => (cfi_address c, cfi_size c)) (cfi_initial_rules (build_module abutting_cfi_sym))
    = [(0x100, 0x10); (0x110, 0x10)] /\
  FindCFIFrameInfo abutting_store (at_ip (0x100 + 0x10) module3) <> None /\
  FindCFIFrameInfo abutting_store (at_ip (0x110 - 1) module3) <> None.
Proof. split; [vm_compute; reflexivity|split; vm_compute; discriminate]. Qed.

(** C10: FillSourceLineInfo leaves a frame whose module is null or not loaded
    unchanged and appends no inline frame; a default frame keeps its empty
    name and file, zero base, line and line base, and is_multiple false. *)
Theorem C10_fill_unloaded_frame_unchanged (st : Store) (fr : StackFrame)
    (inl : list StackFrame)
    (H : module fr = None \/ exists cm, module fr = Some cm /\ HasModule st cm = false) :
  FillSourceLineInfo st fr inl = (fr, inl) /\
  (fr = empty_frame (instruction fr) (module fr) ->
   let g := fst (FillSourceLineInfo st fr inl) in
   function_name g = "" /\ source_file_name g = "" /\ function_base g = 0 /\
   source_line g = 0 /\ source_line_base g = 0 /\ is_multiple g = false).
Proof.
  assert (Heq : FillSourceLineInfo st fr inl = (fr, inl)).
  { unfold FillSourceLineInfo. destruct H as [-> | (cm & -> & Hh)]; [reflexivity|].
    unfold HasModule in Hh. destruct (find_module st (code_file cm)); [discriminate|reflexivity]. }
  split; [exact Heq|]. intros He. rewrite Heq. cbn [fst]. rewrite He. repeat split.
Qed.

(** C10 witness: a frame of an unloaded module and a frame with no module. *)
Lemma C10_witness :
  FillSourceLineInfo resolver12 (at_ip 0x1000 module3) [] = (at_ip 0x1000 module3, []) /\
  FillSourceLineInfo resolver12 (empty_frame 0x1000 None) [] = (empty_frame 0x1000 None, []).
Proof.
  split.
  - assert (Hh : module (at_ip 0x1000 module3) = None \/
                 exists cm, module (at_ip 0x1000 module3) = Some cm /\ HasModule resolver12 cm = false).
    { right. exists module3. split; [reflexivity|vm_compute; reflexivity]. }
    apply (proj1 (C10_fill_unloaded_frame_unchanged resolver12 (at_ip 0x1000 module3) [] Hh)).
  - apply (proj1 (C10_fill_unloaded_frame_unchanged resolver12 (empty_frame 0x1000 None) []
      (or_introl eq_refl))).
Defined.

(** C1 (amended): for the CFI INIT at 0x3d40 of size 0xb0 with rules
    [.cfa: $esp 4 +] and [.ra: .cfa 4 - ^], and any deltas at higher
    addresses, the rules in effect at 0x3d40 are the INIT's own, and
    FindCallerRegs with the callee registers $esp=0x10018, $ebp=0x10038,
    $ebx=0x98ecadc3, $esi=0x878f7524, $edi=0x6312f9a5 and the mock memory
    yields exactly {.cfa: 0x1001c, .ra: 0xf6438648}, each entry agreeing with
    the six-register map; the six-register map itself is recovered at
    0x3d84 with the callee registers the test has there. *)
Theorem C1_caller_regs_at_init (deltas : list (Z * RuleMap))
    (Hd : Forall (fun d => 0x3d40 < fst d) deltas) :
  let c := mkCfiInit 0x3d40 0xb0 [(".cfa", "$esp 4 +"); (".ra", ".cfa 4 - ^")] deltas in
  rules_at c 0x3d40 = cfi_rules c /\
  FindCallerRegs 32 mock_memory (rules_at c 0x3d40) callee_registers
    = Some [(".cfa", 0x1001c); (".ra", 0xf6438648)] /\
  (forall k v, In (k, v) [(".cfa", 0x1001c); (".ra", 0xf6438648)] ->
     lookup_reg expected_caller_registers k = Some v) /\
  caller_map_is registers_at_3d84 expected_caller_registers 0x3d84 = true.
Proof.
  intros c.
  assert (Hr : rules_at c 0x3d40 = cfi_rules c).
  { unfold rules_at. simpl cfi_deltas.
    replace (filter (fun d => fst d <=? 0x3d40) deltas) with (@nil (Z * RuleMap)).
    - reflexivity.
    - induction Hd as [|d ds Hd0 Hds IH]; [reflexivity|].
      simpl. replace (fst d <=? 0x3d40) with false by (symmetry; apply Z.leb_gt; exact Hd0).
      exact IH. }
  split; [exact Hr|]. split; [|split].
  - rewrite Hr. vm_compute. reflexivity.
  - intros k v [Hkv|[Hkv|[]]]; injection Hkv as <- <-; reflexivity.
  - vm_compute. reflexivity.
Qed.

(** C1 witness: module1's CFI INIT is such a record, and its deltas all lie
    after 0x3d40. *)
Lemma C1_witness :
  cfi_initial_rules module1_built =
    [mkCfiInit 0x3d40 0xb0 [(".cfa", "$esp 4 +"); (".ra", ".cfa 4 - ^")] module1_cfi_deltas] /\
  FindCallerRegs 32 mock_memory
    (rules_at (mkCfiInit 0x3d40 0xb0 [(".cfa", "$esp 4 +"); (".ra", ".cfa 4 - ^")]
       module1_cfi_deltas) 0x3d40) callee_registers
    = Some [(".cfa", 0x1001c); (".ra", 0xf6438648)].
Proof.
  split; [vm_compute; reflexivity|].
  assert (Hd : Forall (fun d => 0x3d40 < fst d) module1_cfi_deltas).
  { vm_compute. repeat constructor. }
  exact (proj1 (proj2 (C1_caller_regs_at_init module1_cfi_deltas Hd))).
Defined.

(** C1 counterexample: with the callee registers of the claim, the caller
    map at 0x3d40 is the two-entry map, not the six-entry one, and at no
    address of the INIT's range is the six-entry map produced. *)
Lemma C1_claimed_map_not_recovered :
  caller_map_is callee_registers [(".cfa", 0x1001c); (".ra", 0xf6438648)] 0x3d40 = true /\
  caller_map_is callee_registers expected_caller_registers 0x3d40 = false /\
  forallb (fun ip => negb (caller_map_is callee_registers expected_caller_registers ip))
    (all_ips 0x3d40 0xb0) = true.
Proof. repeat split; vm_compute; reflexivity. Qed.

Lemma step_corrupt_b (b : Builder) (l : string) :
  step (corrupt_b b) l = corrupt_b (step b l).
Proof.
  destruct b as [[fs os fns ps ws cs c] cur cfi].
  unfold step, corrupt_b, with_module, flush_func, flush_cfi, has_origin, has_file; simpl.
  destruct (starts_with "FILE " l); [destruct (ParseFile l); reflexivity|].
  destruct (starts_with "FUNC " l).
  { destruct cur as [fe|]; simpl; destruct (ParseFunction l) as [f|]; simpl;
      try reflexivity; destruct (existsb _ _); reflexivity. }
  destruct (starts_with "INLINE_ORIGIN " l); [destruct (ParseInlineOrigin l); reflexivity|].
  destruct (starts_with "INLINE " l).
  { destruct (ParseInline l) as [i|]; [|reflexivity]. destruct cur as [fe|]; [|reflexivity].
    simpl. destruct (_ && _); reflexivity. }
  destruct (starts_with "PUBLIC " l); [destruct (ParsePublicSymbol l); reflexivity|].
  destruct (starts_with "STACK WIN " l); [destruct (ParseStackWin l); reflexivity|].
  destruct (starts_with "STACK CFI INIT " l).
  { destruct cfi; simpl; destruct (ParseCFIInit l); reflexivity. }
  destruct (starts_with "STACK CFI " l).
  { destruct (ParseCFIDelta l) as [[a rs]|]; [|reflexivity]. destruct cfi as [ci|]; [|reflexivity].
    simpl. destruct (_ && _); reflexivity. }
  destruct (starts_with "MODULE " l || starts_with "INFO " l); [reflexivity|].
  destruct l as [|ch r]; [reflexivity|].
  destruct (is_hex_char ch); [|reflexivity].
  destruct (ParseLine (String ch r)) as [ln|]; [|reflexivity]. destruct cur as [fe|]; [|reflexivity].
  simpl. destruct (existsb _ _); reflexivity.
Qed.

Lemma fold_step_corrupt_b (ls : list string) :
  forall b, fold_left step ls (corrupt_b b) = corrupt_b (fold_left step ls b).
Proof.
  induction ls as [|l ls IH]; intros b; simpl; [reflexivity|].
  rewrite step_corrupt_b. apply IH.
Qed.

Lemma finish_corrupt_b (b : Builder) : finish (corrupt_b b) = set_corrupt (finish b).
Proof.
  destruct b as [[fs os fns ps ws cs c] cur cfi].
  unfold finish, flush_func, flush_cfi; simpl.
  destruct cur, cfi; reflexivity.
Qed.

Lemma step_leaf (b : Builder) (l : string) :
  malformed_leaf l = true -> step b l = corrupt_b b.
Proof.
  unfold malformed_leaf, malformed_line, step.
  destruct (starts_with "FILE " l).
  { destruct (ParseFile l); simpl; [discriminate|reflexivity]. }
  destruct (starts_with "FUNC " l); [rewrite andb_false_r; discriminate|].
  destruct (starts_with "INLINE_ORIGIN " l).
  { destruct (ParseInlineOrigin l); simpl; [discriminate|reflexivity]. }
  destruct (starts_with "INLINE " l).
  { destruct (ParseInline l); simpl; [discriminate|reflexivity]. }
  destruct (starts_with "PUBLIC " l).
  { destruct (ParsePublicSymbol l); simpl; [discriminate|reflexivity]. }
  destruct (starts_with "STACK WIN " l).
  { destruct (ParseStackWin l); simpl; [discriminate|reflexivity]. }
  destruct (starts_with "STACK CFI INIT " l); [rewrite andb_false_r; discriminate|].
  destruct (starts_with "STACK CFI " l).
  { destruct (ParseCFIDelta l) as [[a rs]|]; simpl; [discriminate|reflexivity]. }
  destruct (starts_with "MODULE " l || starts_with "INFO " l); [discriminate|].
  destruct l as [|ch r]; [discriminate|].
  destruct (is_hex_char ch); [|discriminate].
  destruct (ParseLine (String ch r)); simpl; [discriminate|reflexivity].
Qed.

Lemma step_corrupt_flag (b : Builder) (l : string) :
  malformed_line l = true \/ corrupt (b_module b) = true ->
  corrupt (b_module (step b l)) = true.
Proof.
  destruct b as [[fs os fns ps ws cs c] cur cfi]. simpl.
  unfold malformed_line, step, corrupt_b, with_module, flush_func, flush_cfi; simpl.
  destruct (starts_with "FILE " l).
  { destruct (ParseFile l); simpl; intros [H|H]; first [discriminate | exact H | reflexivity]. }
  destruct (starts_with "FUNC " l).
  { destruct (ParseFunction l); simpl; intros [H|H];
      try discriminate; try reflexivity;
      destruct cur; simpl; try destruct (existsb _ _); simpl; first [reflexivity | exact H]. }
  destruct (starts_with "INLINE_ORIGIN " l).
  { destruct (ParseInlineOrigin l); simpl; intros [H|H]; first [discriminate | exact H | reflexivity]. }
  destruct (starts_with "INLINE " l).
  { destruct (ParseInline l); simpl; intros [H|H]; try discriminate; try reflexivity;
      destruct cur; simpl; try destruct (_ && _); simpl; first [reflexivity | exact H]. }
  destruct (starts_with "PUBLIC " l).
  { destruct (ParsePublicSymbol l); simpl; intros [H|H]; first [discriminate | exact H | reflexivity]. }
  destruct (starts_with "STACK WIN " l).
  { destruct (ParseStackWin l); simpl; intros [H|H]; first [discriminate | exact H | reflexivity]. }
  destruct (starts_with "STACK CFI INIT " l).
  { destruct (ParseCFIInit l); simpl; intros [H|H]; try discriminate; try reflexivity;
      destruct cfi; simpl; exact H. }
  destruct (starts_with "STACK CFI " l).
  { destruct (ParseCFIDelta l) as [[a rs]|]; simpl; intros [H|H]; try discriminate; try reflexivity;
      destruct cfi; simpl; try destruct (_ && _); simpl; first [reflexivity | exact H]. }
  destruct (starts_with "MODULE " l || starts_with "INFO " l).
  { intros [H|H]; [discriminate|exact H]. }
  destruct l as [|ch r]; [intros [H|H]; [discriminate|exact H]|].
  destruct (is_hex_char ch); [|intros [H|H]; [discriminate|exact H]].
  destruct (ParseLine (String ch r)); simpl; intros [H|H]; try discriminate; try reflexivity.
  destruct cur; simpl; [destruct (has_file _ _)|]; simpl; first [reflexivity | exact H].
Qed.

Lemma fold_step_corrupt_flag (ls : list string) :
  forall b, existsb malformed_line ls = true \/ corrupt (b_module b) = true ->
  corrupt (b_module (fold_left step ls b)) = true.
Proof.
  induction ls as [|l ls IH]; intros b H; simpl in *.
  - destruct H as [H|H]; [discriminate|exact H].
  - apply IH. destruct H as [H|H].
    + apply orb_true_iff in H. destruct H as [H|H]; [right; apply step_corrupt_flag; left; exact H|left; exact H].
    + right. apply step_corrupt_flag. right. exact H.
Qed.

Lemma finish_corrupt_flag (b : Builder) :
  corrupt (b_module b) = true -> corrupt (finish b) = true.
Proof.
  destruct b as [[fs os fns ps ws cs c] cur cfi]. simpl. intros ->.
  unfold finish, flush_func, flush_cfi; simpl. destruct cur, cfi; reflexivity.
Qed.

Lemma build_module_leaf (pre post : list string) (bad : string) :
  malformed_leaf bad = true ->
  build_module (pre ++ bad :: post) = set_corrupt (build_module (pre ++ post)).
Proof.
  intros Hb. unfold build_module. rewrite !fold_left_app. simpl.
  rewrite step_leaf by exact Hb. rewrite fold_step_corrupt_b. apply finish_corrupt_b.
Qed.

Lemma find_module_load (st : Store) (cm : CodeModule) (m : Module) :
  find_module ((code_file cm, m) :: UnloadModule st cm) (code_file cm) = Some m.
Proof. simpl. rewrite String.eqb_refl. reflexivity. Qed.

(** C7: loading an absent or unreadable file fails and installs nothing;
    loading a readable file succeeds and installs the module built from it,
    corrupt when a record fails to parse; a failed record that opens no FUNC
    or STACK CFI INIT scope leaves exactly the module of the other lines,
    flagged corrupt. *)
Theorem C7_load_module (st : Store) (cm : CodeModule) :
  (HasModule st cm = false ->
   LoadModule st cm None = (false, st) /\ HasModule (snd (LoadModule st cm None)) cm = false) /\
  (forall lines,
   let st' := snd (LoadModule st cm (Some lines)) in
   fst (LoadModule st cm (Some lines)) = true /\ HasModule st' cm = true /\
   find_module st' (code_file cm) = Some (build_module lines) /\
   (existsb malformed_line lines = true -> IsModuleCorrupt st' cm = true) /\
   (forall pre bad post, lines = (pre ++ bad :: post)%list -> malformed_leaf bad = true ->
      find_module st' (code_file cm) = Some (set_corrupt (build_module (pre ++ post))))).
Proof.
  split.
  - intros H. split; [reflexivity|exact H].
  - intros lines st'. unfold st', HasModule, IsModuleCorrupt. simpl. rewrite String.eqb_refl.
    split; [reflexivity|split; [reflexivity|split; [reflexivity|split]]].
    + intros H. unfold build_module. apply finish_corrupt_flag.
      apply fold_step_corrupt_flag. left. exact H.
    + intros pre bad post -> Hb. rewrite build_module_leaf by exact Hb. reflexivity.
Qed.

(** C7 witness: a missing file, a file with a broken PUBLIC record whose
    other records still resolve, and a file whose FUNC has a parameter size
    above the signed-long range. *)
Lemma C7_witness :
  LoadModule [] module3 None = (false, []) /\
  HasModule (snd (LoadModule [] module3 None)) module3 = false /\
  fst (LoadModule [] module3 (Some module3_bad_sym)) = true /\
  HasModule (snd (LoadModule [] module3 (Some module3_bad_sym))) module3 = true /\
  IsModuleCorrupt (snd (LoadModule [] module3 (Some module3_bad_sym))) module3 = true /\
  IsModuleCorrupt (snd (LoadModule [] module3
    (Some ["FILE 1 file3_1.cc"; "FUNC 1000 100 8000000000000000 Function3_1"]))) module3 = true /\
  find_module (snd (LoadModule [] module3 (Some module3_bad_sym))) "module3" =
    Some (set_corrupt (build_module
      ["FILE 1 file3_1.cc"; "FUNC 1000 100 0 Function3_1"; "1000 10 7 1";
       "PUBLIC 2000 0 Public3_1"])) /\
  map (fun ip => frame_summary
         (fst (FillSourceLineInfo (snd (LoadModule [] module3 (Some module3_bad_sym)))
                 (at_ip ip module3) [])))
    [0x1000; 0x2000]
  = [("Function3_1", 0x1000, "file3_1.cc", 7, 0x1000); ("Public3_1", 0x2000, "", 0, 0)].
Proof.
  destruct (C7_load_module [] module3) as [Hnone Hsome].
  assert (Hh : HasModule [] module3 = false) by reflexivity.
  destruct (Hnone Hh) as [H1 H2].
  destruct (Hsome module3_bad_sym) as (H3 & H4 & _ & H5 & H6).
  split; [exact H1|]. split; [exact H2|]. split; [exact H3|]. split; [exact H4|].
  split; [apply H5; vm_compute; reflexivity|].
  split; [apply (proj1 (proj2 (proj2 (proj2 (Hsome _))))); vm_compute; reflexivity|].
  split; [|vm_compute; reflexivity].
  apply (H6 ["FILE 1 file3_1.cc"; "FUNC 1000 100 0 Function3_1"; "1000 10 7 1"]
            "PUBLIC zz 0 Broken" ["PUBLIC 2000 0 Public3_1"]);
    vm_compute; reflexivity.
Defined.












(** C2 (amended): the form of an INLINE record is decided by the parity of
    the number of tokens after the INLINE keyword: odd means the old form
    (the third integer is the origin id), even means the new form (the third
    integer is the call-site file id, the fourth the origin id); so
    [INLINE 0 1 2 3 4] is old with origin 2 and [INLINE 0 1 2 3 a b 1a 1b] is
    new with file 2 and origin 3. *)
Theorem C2_inline_form_by_token_parity (l : string) (r : Inline) (H : ParseInline l = Some r) :
  ParseInline "INLINE 0 1 2 3 4" = Some (mkInline false 0 1 0 2 [(3, 4)]) /\
  ParseInline "INLINE 0 1 2 3 a b 1a 1b" = Some (mkInline true 0 1 2 3 [(0xa, 0xb); (0x1a, 0x1b)]) /\
  exists rest, strip_prefix "INLINE " l = Some rest /\
  let ts := words rest in
  (5 <= length ts)%nat /\
  inl_has_call_site_file_id r = Nat.even (length ts) /\
  parse_dec_nonneg (nth 0 ts "") = Some (inl_nest_level r) /\
  parse_dec_nonneg (nth 1 ts "") = Some (inl_call_site_line r) /\
  (if Nat.even (length ts) then
     parse_dec_nonneg (nth 2 ts "") = Some (inl_call_site_file_id r) /\
     parse_dec_nonneg (nth 3 ts "") = Some (inl_origin_id r) /\
     parse_ranges (skipn 4 ts) = Some (inl_ranges r)
   else
     parse_dec_nonneg (nth 2 ts "") = Some (inl_origin_id r) /\
     parse_ranges (skipn 3 ts) = Some (inl_ranges r)).
Proof.
  split; [vm_compute; reflexivity|]. split; [vm_compute; reflexivity|].
  unfold ParseInline in H. destruct (strip_prefix "INLINE " l) as [rest|]; [|discriminate].
  exists rest. split; [reflexivity|]. cbv zeta.
  remember (words rest) as ts eqn:Ets. clear Ets.
  destruct (length ts <? 5)%nat eqn:Elen; [discriminate|]. apply Nat.ltb_ge in Elen.
  split; [exact Elen|].
  destruct ts as [|n [|cl [|t3 [|t4 rs]]]]; try discriminate.
  cbn [nth skipn].
  destruct (Nat.even (length (n :: cl :: t3 :: t4 :: rs))) eqn:Ee.
  - destruct (parse_dec_nonneg n) eqn:E1; [|discriminate].
    destruct (parse_dec_nonneg cl) eqn:E2; [|discriminate].
    destruct (parse_dec_nonneg t3) eqn:E3; [|discriminate].
    destruct (parse_dec_nonneg t4) eqn:E4; [|discriminate].
    destruct (parse_ranges rs) eqn:E5; [|discriminate].
    injection H as <-. simpl. repeat split; assumption.
  - destruct (parse_dec_nonneg n) eqn:E1; [|discriminate].
    destruct (parse_dec_nonneg cl) eqn:E2; [|discriminate].
    destruct (parse_dec_nonneg t3) eqn:E4; [|discriminate].
    destruct (parse_ranges (t4 :: rs)) eqn:E5; [|discriminate].
    injection H as <-. simpl. repeat split; assumption.
Qed.

(** C2 counterexample: in [INLINE 0 1 2 3 4] two tokens remain after the
    first three integer fields (an even count), yet the record is parsed in
    the old form, with origin id 2. *)
Lemma C2_old_form_with_even_remainder :
  (length (skipn 3 (words "0 1 2 3 4")) = 2)%nat /\
  option_map inl_has_call_site_file_id (ParseInline "INLINE 0 1 2 3 4") = Some false /\
  option_map inl_origin_id (ParseInline "INLINE 0 1 2 3 4") = Some 2.
Proof. repeat split; vm_compute; reflexivity. Qed.

(** C2 witness: the new-form vector, whose fourth token is the origin id. *)
Lemma C2_witness :
  strip_prefix "INLINE " "INLINE 0 1 2 3 a b 1a 1b" = Some "0 1 2 3 a b 1a 1b" /\
  parse_dec_nonneg (nth 3 (words "0 1 2 3 a b 1a 1b") "") = Some 3.
Proof.
  destruct (C2_inline_form_by_token_parity "INLINE 0 1 2 3 a b 1a 1b"
              (mkInline true 0 1 2 3 [(0xa, 0xb); (0x1a, 0x1b)]) ltac:(vm_compute; reflexivity))
    as (_ & _ & rest & Hr & _ & Hf & _ & _ & Hroles).
  injection Hr as <-. split; [reflexivity|].
  simpl in Hf. vm_compute in Hroles. destruct Hroles as (_ & Ho & _). exact Ho.
Defined.









(** C3 witness: module2 at 0x219f, where the fallback is blocked. *)
Lemma C3_witness :
  fst (FillSourceLineInfo resolver12 (at_ip 0x219f module2) []) = at_ip 0x219f module2.
Proof.
  destruct (C3_resolve_function_or_public resolver12 (at_ip 0x219f module2) module2
              module2_built eq_refl ltac:(vm_compute; reflexivity))
    as (_ & _ & Hblocked & _).
  apply Hblocked.
  - intros fe Hfe. vm_compute in Hfe.
    destruct Hfe as [<-|[<-|[]]]; vm_compute; reflexivity.
  - intros p Hp Hpx. vm_compute in Hp.
    destruct Hp as [<-|[<-|[]]]; [|exfalso; vm_compute in Hpx; apply Hpx; reflexivity].
    exists (nth 1 (functions module2_built) no_entry).
    split; [apply nth_In; vm_compute; reflexivity|].
    split; vm_compute; discriminate.
Defined.

(** C3 counterexample: on module2 no function contains 0x219f and Public2_1
    lies at 0x2160, below it, yet no symbol is reported. *)
Lemma C3_public_below_but_no_symbol :
  find_function module2_built 0x219f = None /\
  In (mkPublic "Public2_1" 0x2160 0 false) (public_symbols module2_built) /\
  function_name (fst (FillSourceLineInfo resolver12 (at_ip 0x219f module2) [])) = "".
Proof. split; [vm_compute; reflexivity|split; [vm_compute; left; reflexivity|vm_compute; reflexivity]]. Qed.

(** C4 witness: main's location on the new-format input. *)
Lemma C4_witness :
  let g := fst (FillSourceLineInfo inline_new_store (at_ip 0x161b6 linux_inline) []) in
  (source_file_name g, source_line g) = ("a.cpp", 42).
Proof.
  destruct (C4_inline_frame_locations inline_new_store (at_ip 0x161b6 linux_inline) linux_inline
              inline_new_built inline_new_main eq_refl ltac:(vm_compute; reflexivity)
              ltac:(vm_compute; reflexivity))
    as (_ & Hmain & _).
  intros g. unfold g.
  rewrite (Hmain (nth 0 (inline_chain inline_new_main 0x161b6) (mkInline false 0 0 0 0 []))
             ltac:(vm_compute; reflexivity)).
  vm_compute. reflexivity.
Defined.

(** C5 witness: no STACK WIN record of module1 covers 0x800. *)
Lemma C5_witness : FindWindowsFrameInfo resolver12 (at_ip 0x800 module1) = None.
Proof.
  destruct (C5_windows_frame_info_lookup resolver12 (at_ip 0x800 module1) module1 module1_built
              eq_refl ltac:(vm_compute; reflexivity)) as (_ & Hiff & _).
  apply Hiff. intros w Hw. vm_compute in Hw.
  destruct Hw as [<-|[<-|[<-|[]]]]; vm_compute; reflexivity.
Defined.

(** C6 witness: module1 at 0x3df0, the end of its only INIT. *)
Lemma C6_witness : FindCFIFrameInfo resolver12 (at_ip 0x3df0 module1) = None.
Proof.
  destruct (C6_cfi_lookup_outside_inits resolver12 (at_ip 0x3df0 module1) module1 module1_built
              eq_refl ltac:(vm_compute; reflexivity)) as (Hiff & _ & _).
  apply Hiff. intros c Hc. vm_compute in Hc.
  destruct Hc as [<-|[]]; vm_compute; reflexivity.
Defined.

(** C9 witness: the old-format inline input at 0x161b6. *)
Lemma C9_witness :
  Forall2 (fun i f => function_name f = origin_name_of inline_old_built i /\
                      trust f = FRAME_TRUST_INLINE)
    (rev (inline_chain inline_old_main 0x161b6))
    (snd (FillSourceLineInfo inline_old_store (at_ip 0x161b6 linux_inline) [])) /\
  map inl_nest_level (rev (inline_chain inline_old_main 0x161b6)) = [2; 1; 0].
Proof.
  destruct (C9_inline_frames_innermost_first inline_old_store (at_ip 0x161b6 linux_inline)
              linux_inline inline_old_built inline_old_main eq_refl
              ltac:(vm_compute; reflexivity) ltac:(vm_compute; reflexivity))
    as (Hf2 & _ & _ & _).
  split; [exact Hf2|vm_compute; reflexivity].
Defined.

(** * Properties of the unit test helpers and of dump_syms_tool.cc *)

Lemma advance_to_it_compose (e f : StackFrameEntry) (l : list StackFrameEntry) :
  cfi_address e <= cfi_address f ->
  advance_to_it f (advance_to_it e l) = advance_to_it f l.
Proof.
  intros Hef. induction l as [|t ts IH]; [reflexivity|].
  simpl. destruct (cfi_address e >? cfi_address t) eqn:E.
  - rewrite IH. apply Z.gtb_lt in E.
    replace (cfi_address f >? cfi_address t) with true by (symmetry; apply Z.gtb_lt; lia).
    reflexivity.
  - simpl. reflexivity.
Qed.

Lemma copy_loop_filter_advance (from_data to_it : list StackFrameEntry) :
  StronglySorted addr_le from_data ->
  copy_loop from_data to_it =
  filter (fun e => safe_to_copy e (advance_to_it e to_it)) from_data.
Proof.
  intros Hs. revert to_it. induction Hs as [|f fs Hs IH Hall]; intros to_it; [reflexivity|].
  simpl. rewrite (IH (advance_to_it f to_it)).
  assert (Heq : filter (fun e => safe_to_copy e (advance_to_it e (advance_to_it f to_it))) fs =
                filter (fun e => safe_to_copy e (advance_to_it e to_it)) fs).
  { apply filter_ext_in. intros e He. rewrite advance_to_it_compose; [reflexivity|].
    rewrite Forall_forall in Hall. apply (Hall e He). }
  rewrite Heq. destruct (safe_to_copy f (advance_to_it f to_it)); reflexivity.
Qed.

Lemma safe_advance_forallb (e : StackFrameEntry) (to_data : list StackFrameEntry) :
  StronglySorted addr_le to_data ->
  safe_to_copy e (advance_to_it e to_data) = no_to_entry_within to_data e.
Proof.
  intros Hs. induction Hs as [|t ts Hs IH Hall]; [reflexivity|].
  unfold no_to_entry_within in *. simpl.
  destruct (cfi_address e >? cfi_address t) eqn:E.
  - apply Z.gtb_lt in E. rewrite IH. replace (cfi_address t <? cfi_address e) with true
      by (symmetry; apply Z.ltb_lt; lia). reflexivity.
  - rewrite Z.gtb_ltb in E. rewrite E. simpl.
    destruct ((cfi_address e <? cfi_address t) && (from_entry_end e <? cfi_address t)) eqn:S;
      simpl; [|reflexivity].
    apply andb_true_iff in S as [S1 S2]. apply Z.ltb_lt in S1, S2.
    symmetry. apply forallb_forall. intros t' Ht'. rewrite Forall_forall in Hall.
    specialize (Hall t' Ht'). unfold addr_le in Hall.
    apply orb_true_iff. right. apply andb_true_iff. split; apply Z.ltb_lt; lia.
Qed.

Lemma sorted_strongly (l : list StackFrameEntry) :
  Sorted addr_le l -> StronglySorted addr_le l.
Proof.
  apply Sorted_StronglySorted. unfold Relations_1.Transitive, addr_le. intros; lia.
Qed.

Lemma insert_entry_perm (e : StackFrameEntry) (l : list StackFrameEntry) :
  Permutation (e :: l) (insert_entry e l).
Proof.
  induction l as [|x r IH]; simpl; [reflexivity|].
  destruct (StackFrameEntryComparator x e); [|reflexivity].
  rewrite perm_swap. constructor. exact IH.
Qed.

Lemma insert_entry_sorted (e : StackFrameEntry) (l : list StackFrameEntry) :
  Sorted addr_le l -> Sorted addr_le (insert_entry e l).
Proof.
  induction 1 as [|x r Hs IH Hhd]; simpl.
  - repeat constructor.
  - unfold StackFrameEntryComparator. destruct (cfi_address x <? cfi_address e) eqn:E.
    + apply Z.ltb_lt in E. constructor; [exact IH|].
      destruct r as [|y r']; simpl.
      * constructor. unfold addr_le. lia.
      * unfold StackFrameEntryComparator. inversion Hhd; subst.
        destruct (cfi_address y <? cfi_address e); constructor; unfold addr_le in *; lia.
    + apply Z.ltb_ge in E. constructor; [constructor; assumption|].
      constructor. unfold addr_le. lia.
Qed.

Lemma sort_entries_spec (l : list StackFrameEntry) :
  Sorted addr_le (sort_entries l) /\ Permutation l (sort_entries l).
Proof.
  induction l as [|e r [IHs IHp]]; simpl.
  - split; constructor.
  - split.
    + apply insert_entry_sorted. exact IHs.
    + rewrite <- insert_entry_perm. constructor. exact IHp.
Qed.

Lemma no_to_entry_within_perm (l l' : list StackFrameEntry) (e : StackFrameEntry) :
  Permutation l l' -> no_to_entry_within l e = no_to_entry_within l' e.
Proof.
  intros Hp. unfold no_to_entry_within.
  induction Hp; simpl; try congruence.
  rewrite !andb_assoc, (andb_comm (_ || _) (_ || _)). reflexivity.
Qed.

Lemma strongly_sorted_filter (f : StackFrameEntry -> bool) (l : list StackFrameEntry) :
  StronglySorted addr_le l -> StronglySorted addr_le (filter f l).
Proof.
  induction 1 as [|x r Hs IH Hall]; simpl; [constructor|].
  destruct (f x); [|exact IH]. constructor; [exact IH|].
  rewrite Forall_forall in *. intros y Hy. apply filter_In in Hy as [Hy _]. apply Hall, Hy.
Qed.

Lemma entries_to_copy_filter (to_entries from_entries : list StackFrameEntry) :
  entries_to_copy to_entries from_entries =
  filter (no_to_entry_within to_entries) (sort_entries from_entries).
Proof.
  unfold entries_to_copy. destruct (sort_entries_spec from_entries) as [Sf Pf].
  destruct (sort_entries_spec to_entries) as [St Pt].
  rewrite copy_loop_filter_advance by (apply sorted_strongly; exact Sf).
  apply filter_ext. intros e. rewrite safe_advance_forallb by (apply sorted_strongly; exact St).
  apply no_to_entry_within_perm. symmetry. exact Pt.
Qed.

Lemma entries_to_copy_in (to_entries from_entries : list StackFrameEntry) (e : StackFrameEntry) :
  In e (entries_to_copy to_entries from_entries) <->
  In e from_entries /\
  forall t, In t to_entries ->
    cfi_address t < cfi_address e \/
    (cfi_address e < cfi_address t /\ from_entry_end e < cfi_address t).
Proof.
  rewrite entries_to_copy_filter. destruct (sort_entries_spec from_entries) as [Sf Pf].
  rewrite filter_In. unfold no_to_entry_within. rewrite forallb_forall.
  split; intros [H1 H2]; split.
  - apply (Permutation_in e (Permutation_sym Pf) H1).
  - intros t Ht. specialize (H2 t Ht). apply orb_true_iff in H2 as [H2|H2].
    + left. apply Z.ltb_lt. exact H2.
    + right. apply andb_true_iff in H2 as [A B]. apply Z.ltb_lt in A, B. lia.
  - apply (Permutation_in e Pf H1).
  - intros t Ht. destruct (H2 t Ht) as [A|[A B]]; apply orb_true_iff;
      [left; apply Z.ltb_lt; exact A|right; apply andb_true_iff; split; apply Z.ltb_lt; assumption].
Qed.

(** X1: CopyCFIDataBetweenModules adds to |to_module| exactly the entries of
    |from_module| such that every entry of |to_module| starts either strictly
    below the entry's address, or strictly after both its address and its end
    (address + size, in uint64_t).  The entries are added in address order,
    and into a module without CFI every entry of |from_module| is added. *)
Theorem entries_to_copy_spec (to_entries from_entries : list StackFrameEntry) :
  (forall e, In e (entries_to_copy to_entries from_entries) <->
     In e from_entries /\
     forall t, In t to_entries ->
       cfi_address t < cfi_address e \/
       (cfi_address e < cfi_address t /\ from_entry_end e < cfi_address t)) /\
  Sorted (fun a b => cfi_address a <= cfi_address b) (entries_to_copy to_entries from_entries) /\
  Permutation (entries_to_copy [] from_entries) from_entries.
Proof.
  split; [intros e; apply entries_to_copy_in|].
  rewrite !entries_to_copy_filter. destruct (sort_entries_spec from_entries) as [Sf Pf].
  split.
  - apply StronglySorted_Sorted. apply strongly_sorted_filter. apply sorted_strongly. exact Sf.
  - unfold no_to_entry_within. simpl. rewrite filter_true. symmetry. exact Pf.
Qed.

(** X2: an entry of |from_module| is copied when every entry of |to_module|
    starts below it, even one that overlaps it; it is not copied when an
    entry of |to_module| starts at or after its address and no later than its
    end, also when that entry starts exactly at its end. *)
Theorem entries_to_copy_edges (to_entries from_entries : list StackFrameEntry)
    (e : StackFrameEntry) (He : In e from_entries) :
  ((forall t, In t to_entries -> cfi_address t < cfi_address e) ->
   In e (entries_to_copy to_entries from_entries)) /\
  (forall t, In t to_entries ->
   cfi_address e <= cfi_address t <= from_entry_end e ->
   ~ In e (entries_to_copy to_entries from_entries)).
Proof.
  split.
  - intros Hall. apply entries_to_copy_in. split; [exact He|]. intros t Ht. left. apply Hall, Ht.
  - intros t Ht Hr Hin. apply entries_to_copy_in in Hin as [_ Hin]. destruct (Hin t Ht) as [A|[A B]]; lia.
Qed.

Lemma verify_actual_entries_spec (expected actual : RegisterValueMap) :
  verify_actual_entries expected actual = true <->
  forall k v, In (k, v) actual -> lookup_reg expected k = Some v.
Proof.
  induction actual as [|[k v] rest IH]; simpl.
  - split; [intros _ k v []|reflexivity].
  - destruct (lookup_reg expected k) as [e|] eqn:E.
    + destruct (e =? v) eqn:Ev; simpl.
      * apply Z.eqb_eq in Ev. subst e. rewrite IH. split.
        -- intros H k' v' [Hkv|Hkv]; [inversion Hkv; subst; exact E|apply H, Hkv].
        -- intros H k' v' Hkv. apply H. right. exact Hkv.
      * split; [discriminate|]. intros H. specialize (H k v (or_introl eq_refl)).
        rewrite E in H. inversion H; subst. rewrite Z.eqb_refl in Ev. discriminate.
    + split; [discriminate|]. intros H. specialize (H k v (or_introl eq_refl)). congruence.
Qed.

Lemma VerifyRegisters_iff (expected actual : RegisterValueMap) :
  VerifyRegisters expected actual = true <->
  lookup_reg actual ".cfa" <> None /\ lookup_reg actual ".ra" <> None /\
  (forall k v, In (k, v) actual -> lookup_reg expected k = Some v).
Proof.
  unfold VerifyRegisters. rewrite <- verify_actual_entries_spec.
  destruct (lookup_reg actual ".cfa"); [|split; [discriminate|intros [H _]; congruence]].
  destruct (lookup_reg actual ".ra"); [|split; [discriminate|intros [_ [H _]]; congruence]].
  split; [intros H; repeat split; try discriminate; exact H|intros [_ [_ H]]; exact H].
Qed.

(** X3: VerifyRegisters expected actual holds exactly when [actual] has a
    .cfa and a .ra entry and every entry of [actual] is found with the same
    value in [expected] (the first entry for its key); extra entries of
    [expected] do not matter. *)
Theorem VerifyRegisters_spec (expected actual : RegisterValueMap) :
  VerifyRegisters expected actual = true <->
  lookup_reg actual ".cfa" <> None /\ lookup_reg actual ".ra" <> None /\
  (forall k v, In (k, v) actual -> lookup_reg expected k = Some v).
Proof. apply VerifyRegisters_iff. Qed.

Lemma lookup_reg_in (m : RegisterValueMap) (k : string) (v : Z) :
  lookup_reg m k = Some v -> In (k, v) m.
Proof.
  induction m as [|[k' v'] r IH]; simpl; [discriminate|].
  destruct (String.eqb k' k) eqn:E.
  - apply String.eqb_eq in E. subst. intros H; inversion H; subst. left. reflexivity.
  - intros H. right. apply IH, H.
Qed.

(** X4: VerifyRegisters composes: if [a] verifies against [b] and [b]
    against [c], then [a] verifies against [c]. *)
Theorem VerifyRegisters_trans (a b c : RegisterValueMap)
    (Hab : VerifyRegisters b a = true) (Hbc : VerifyRegisters c b = true) :
  VerifyRegisters c a = true.
Proof.
  apply VerifyRegisters_iff in Hab as [H1 [H2 H3]].
  apply VerifyRegisters_iff in Hbc as [_ [_ H4]].
  apply VerifyRegisters_iff. repeat split; try assumption.
  intros k v Hkv. apply H4, lookup_reg_in, H3, Hkv.
Qed.

Lemma lookup_reg_nodup (m : RegisterValueMap) (k : string) (v : Z) :
  NoDup (map fst m) -> In (k, v) m -> lookup_reg m k = Some v.
Proof.
  induction m as [|[k' v'] r IH]; simpl; [intros _ []|].
  intros Hnd Hin. inversion Hnd as [|x l Hnotin Hnd']; subst.
  destruct (String.eqb k' k) eqn:E.
  - apply String.eqb_eq in E. subst. destruct Hin as [Hin|Hin]; [congruence|].
    exfalso. apply Hnotin. apply (in_map fst) in Hin. exact Hin.
  - destruct Hin as [Hin|Hin]; [inversion Hin; subst; rewrite String.eqb_refl in E; discriminate|].
    apply IH; assumption.
Qed.

(** X5: a map whose keys are distinct verifies against itself exactly when it
    has a .cfa and a .ra entry. *)
Theorem VerifyRegisters_refl (m : RegisterValueMap) (Hkeys : NoDup (map fst m)) :
  VerifyRegisters m m = true <-> lookup_reg m ".cfa" <> None /\ lookup_reg m ".ra" <> None.
Proof.
  rewrite VerifyRegisters_iff. split; [intros [A [B _]]; split; assumption|].
  intros [A B]. repeat split; try assumption. intros k v Hkv. apply lookup_reg_nodup; assumption.
Qed.

Section SetupProofs.
Context {ArchInfo : Type} `{ArchUtilities ArchInfo}.

Lemma apply_flags_app (f1 f2 : list ascii) (o : Options ArchInfo) :
  apply_flags f2 (apply_flags f1 o) = apply_flags (f1 ++ f2) o.
Proof.
  unfold apply_flags, flag_set. simpl. rewrite !existsb_app.
  rewrite !negb_orb, <- !orb_assoc, <- !andb_assoc. reflexivity.
Qed.

Lemma handle_flag (c : ascii) (o : Options ArchInfo) :
  In c flag_chars ->
  option_spec getopt_optstring c = Some false /\
  handle_option c "" o = SetupOk (apply_flags [c] o) /\ c <> "-"%char.
Proof.
  intros Hc. destruct o as [? ? ? [] [] [] [] [] ? [] []];
  simpl in Hc; repeat destruct Hc as [<-|Hc]; try contradiction;
  (split; [reflexivity|split; [reflexivity|discriminate]]).
Qed.

Lemma setup_group_flags (rest : list string) (r : string) (c : ascii) (o : Options ArchInfo) :
  Forall (fun x => In x flag_chars) (list_ascii_of_string (String c r)) ->
  setup_group setup_loop rest c r o =
  setup_loop rest (apply_flags (list_ascii_of_string (String c r)) o).
Proof.
  revert c o. induction r as [|c' r' IH]; intros c o Hf; inversion Hf as [|x l Hc Hf']; subst.
  - cbn [setup_group]. destruct (handle_flag c o Hc) as [E1 [E2 _]]. rewrite E1, E2. reflexivity.
  - cbn [setup_group]. destruct (handle_flag c o Hc) as [E1 [E2 _]]. rewrite E1, E2.
    rewrite IH by exact Hf'. rewrite apply_flags_app. reflexivity.
Qed.

Lemma setup_loop_groups (groups rest : list string) (o : Options ArchInfo) :
  Forall (fun g => g <> "" /\ Forall (fun x => In x flag_chars) (list_ascii_of_string g)) groups ->
  setup_loop (map (String "-") groups ++ rest) o =
  setup_loop rest (apply_flags (flat_map list_ascii_of_string groups) o).
Proof.
  revert o. induction groups as [|g gs IH]; intros o Hg.
  - simpl. f_equal. destruct o as [? ? ? [] [] [] [] [] ? [] []]; reflexivity.
  - inversion Hg as [|x l [Hne Hf] Hg']; subst.
    destruct g as [|c r]; [contradiction|].
    inversion Hf as [|x l Hc _]; subst.
    destruct (handle_flag c o Hc) as [_ [_ Hdash]].
    simpl. rewrite (proj2 (Ascii.eqb_neq c "-") Hdash).
    rewrite setup_group_flags by exact Hf. rewrite IH by exact Hg'.
    rewrite apply_flags_app. reflexivity.
Qed.

Lemma setup_loop_operand (a : string) (rest : list string) (o : Options ArchInfo) :
  String.get 0 a <> Some "-"%char ->
  setup_loop (a :: rest) o = finish_options o (a :: rest).
Proof.
  intros Ha. destruct a as [|x y]; [reflexivity|]. simpl in Ha.
  destruct x as [[] [] [] [] [] [] [] []]; try reflexivity; contradiction.
Qed.

End SetupProofs.

(** X7: a command line made of flag groups (each a "-" followed by flags
    among i w c r d m x) and then operands none of which starts with "-"
    gives, for exactly one operand, the default options with srcPath the
    operand and each flag applied (-i header only, -c no CFI, -r no inter-CU
    references, -d inlines, -m multiple, -x extern names, -w warnings), in
    any order and grouping; for no operand or several, SetupOptions exits
    with status 1. *)
Theorem SetupOptions_flags {ArchInfo : Type} `{ArchUtilities ArchInfo}
    (prog : string) (groups operands : list string)
    (Hgroups : Forall (fun g => g <> "" /\
        Forall (fun c => In c ["i"; "w"; "c"; "r"; "d"; "m"; "x"]%char) (list_ascii_of_string g))
        groups)
    (Hoperands : Forall (fun a => String.get 0 a <> Some "-"%char) operands) :
  let given c := existsb (fun g => existsb (Ascii.eqb c) (list_ascii_of_string g)) groups in
  SetupOptions (prog :: map (String "-") groups ++ operands) =
  match operands with
  | [file] =>
      SetupOk (mkOptions file "" None (given "i"%char) (negb (given "c"%char))
                 (negb (given "r"%char)) (given "d"%char) (given "m"%char) ""
                 (given "x"%char) (given "w"%char))
  | _ => SetupExit 1
  end.
Proof.
  simpl. rewrite setup_loop_groups by exact Hgroups.
  assert (Hg : forall c, flag_set (flat_map list_ascii_of_string groups) c =
                   existsb (fun g => existsb (Ascii.eqb c) (list_ascii_of_string g)) groups).
  { intros c. unfold flag_set. induction groups as [|g gs IH]; [reflexivity|].
    simpl. rewrite existsb_app, IH; [reflexivity|]. inversion Hgroups; assumption. }
  destruct operands as [|a rest]; [reflexivity|].
  inversion Hoperands as [|x l Ha _]; subst.
  rewrite setup_loop_operand by exact Ha.
  destruct rest as [|b rest']; [|reflexivity].
  simpl. rewrite !Hg. reflexivity.
Qed.

Lemma option_spec_cases (c : ascii) :
  option_spec getopt_optstring c = None \/
  In c ["i"; "w"; "a"; "g"; "c"; "r"; "d"; "m"; "?"; "h"; "n"; "x"]%char.
Proof.
  destruct c as [[] [] [] [] [] [] [] []];
    first [left; reflexivity | right; cbv [In]; repeat first [left; reflexivity | right]].
Qed.

Section UsageProofs.
Context {ArchInfo : Type} `{ArchUtilities ArchInfo}.

Lemma setup_loop_unknown (c : ascii) (r : string) (rest : list string) (o : Options ArchInfo) :
  ~ In c ["i"; "w"; "a"; "g"; "c"; "r"; "d"; "m"; "n"; "x"]%char -> String c r <> "-" ->
  setup_loop (String "-" (String c r) :: rest) o = SetupExit 0.
Proof.
  intros Hc Hdd. cbn [setup_loop].
  replace (String.eqb (String "-" (String c r)) "--") with false
    by (symmetry; apply String.eqb_neq; intros E; injection E; intros; subst; apply Hdd; reflexivity).
  destruct (option_spec_cases c) as [E|Hin].
  - destruct r; cbn [setup_group]; rewrite E; destruct o; reflexivity.
  - destruct r; simpl in Hin; repeat destruct Hin as [<-|Hin]; try (exfalso; apply Hc; simpl; tauto);
      try contradiction; destruct o; reflexivity.
Qed.

Lemma setup_loop_missing_arg (g : ascii) (o : Options ArchInfo) :
  In g ["a"; "g"; "n"]%char -> setup_loop [String "-" (String g "")] o = SetupExit 0.
Proof.
  intros Hg. simpl in Hg. repeat destruct Hg as [<-|Hg]; try contradiction; destruct o; reflexivity.
Qed.

Lemma setup_loop_bad_arch (name : string) (rest : list string) (o : Options ArchInfo) :
  GetArchInfoFromName name = None ->
  setup_loop ("-a" :: name :: rest) o = SetupExit 1 /\
  (name <> "" -> setup_loop (String "-" (String "a" name) :: rest) o = SetupExit 1).
Proof.
  intros Hn. split.
  - destruct o. simpl. rewrite Hn. reflexivity.
  - intros Hne. destruct name as [|x y]; [contradiction|]. destruct o. simpl.
    rewrite Hn. reflexivity.
Qed.

End UsageProofs.

(** X8: after any flag groups, an option character that is not one of
    i w a g c r d m n x (so -h, -? and any unknown option) makes
    SetupOptions print the usage and exit with status 0, and so does a last
    -a, -g or -n without its argument: main then returns 0 without calling
    DumpSymbols at all. *)
Theorem SetupOptions_usage_exit {ArchInfo M : Type} `{ArchUtilities ArchInfo}
    `{ModuleInterface M} `{DumpSymbolsInterface ArchInfo M}
    (prog : string) (groups : list string) (c : ascii) (r : string) (rest : list string)
    (Hgroups : Forall (fun g => g <> "" /\
        Forall (fun c => In c ["i"; "w"; "c"; "r"; "d"; "m"; "x"]%char) (list_ascii_of_string g))
        groups)
    (Hc : ~ In c ["i"; "w"; "a"; "g"; "c"; "r"; "d"; "m"; "n"; "x"]%char)
    (Hnot_end : String c r <> "-") :
  SetupOptions (prog :: map (String "-") groups ++ String "-" (String c r) :: rest) = SetupExit 0 /\
  @main ArchInfo M _ _ _ (prog :: map (String "-") groups ++ String "-" (String c r) :: rest)
    = (0, []) /\
  (forall g, In g ["a"; "g"; "n"]%char ->
   SetupOptions (prog :: map (String "-") groups ++ [String "-" (String g "")]) = SetupExit 0 /\
   @main ArchInfo M _ _ _ (prog :: map (String "-") groups ++ [String "-" (String g "")]) = (0, [])).
Proof.
  assert (E1 : SetupOptions (prog :: map (String "-") groups ++ String "-" (String c r) :: rest)
               = SetupExit 0).
  { unfold SetupOptions. rewrite setup_loop_groups by exact Hgroups.
    apply setup_loop_unknown; assumption. }
  split; [exact E1|split; [unfold main; rewrite E1; reflexivity|]].
  intros g Hg.
  assert (E2 : SetupOptions (prog :: map (String "-") groups ++ [String "-" (String g "")])
               = SetupExit 0).
  { unfold SetupOptions. rewrite setup_loop_groups by exact Hgroups.
    apply setup_loop_missing_arg, Hg. }
  split; [exact E2|unfold main; rewrite E2; reflexivity].
Qed.

(** X9: an architecture name that GetArchInfoFromName does not know, given
    to -a as the next argument or attached to it, makes SetupOptions exit
    with status 1. *)
Theorem SetupOptions_invalid_arch {ArchInfo : Type} `{ArchUtilities ArchInfo}
    (prog name : string) (groups rest : list string)
    (Hgroups : Forall (fun g => g <> "" /\
        Forall (fun c => In c ["i"; "w"; "c"; "r"; "d"; "m"; "x"]%char) (list_ascii_of_string g))
        groups)
    (Hname : GetArchInfoFromName name = None) :
  SetupOptions (prog :: map (String "-") groups ++ "-a" :: name :: rest) = SetupExit 1 /\
  (name <> "" ->
   SetupOptions (prog :: map (String "-") groups ++ String "-" (String "a" name) :: rest)
   = SetupExit 1).
Proof.
  unfold SetupOptions. rewrite !setup_loop_groups by exact Hgroups.
  apply setup_loop_bad_arch, Hname.
Qed.

Section StartProofs.
Context {ArchInfo M : Type} `{ModuleInterface M} `{DumpSymbolsInterface ArchInfo M}.

Lemma ends_with_write (calls : list (DSEvent ArchInfo M)) :
  (exists pre e, calls = (pre ++ [e])%list /\ write_succeeded e = true) <->
  write_succeeded (last calls (EvSetReportWarnings false)) = true.
Proof.
  split.
  - intros (pre & e & -> & He). rewrite last_last. exact He.
  - destruct calls as [|c cs] using rev_ind; [discriminate|].
    rewrite last_last. intros He. exists cs, c. split; [reflexivity|exact He].
Qed.

Lemma last_write_iff (r : bool) (calls : list (DSEvent ArchInfo M)) :
  r = write_succeeded (last calls (EvSetReportWarnings false)) ->
  (r = true <-> exists pre e, calls = (pre ++ [e])%list /\ write_succeeded e = true).
Proof. intros ->. symmetry. apply ends_with_write. Qed.

Lemma modules_match_spec (o : Options ArchInfo) (module cfi_module : M) :
  modules_match o module cfi_module = true ->
  os module = os cfi_module /\ architecture module = architecture cfi_module /\
  identifier module = identifier cfi_module /\
  (module_name o <> "" \/ name module = name cfi_module).
Proof.
  unfold modules_match. intros Hm. apply andb_true_iff in Hm as [Hm Hid].
  apply andb_true_iff in Hm as [Hm Harch]. apply andb_true_iff in Hm as [Hn Hos].
  apply String.eqb_eq in Hid, Harch, Hos.
  repeat split; try (symmetry; assumption).
  destruct (String.eqb (module_name o) "") eqn:E; simpl in Hn.
  - right. apply String.eqb_eq in Hn. symmetry. exact Hn.
  - left. apply String.eqb_neq. exact E.
Qed.

Lemma split_module_false (o : Options ArchInfo) :
  dsymPath o = "" \/ srcPath o = "" \/ cfi o = false -> split_module o = false.
Proof.
  unfold split_module. intros [E|[E|E]]; rewrite E; simpl;
    [reflexivity|rewrite andb_false_r; reflexivity|rewrite andb_false_r; reflexivity].
Qed.

Lemma split_module_true (o : Options ArchInfo) :
  dsymPath o <> "" -> srcPath o <> "" -> cfi o = true -> split_module o = true.
Proof.
  unfold split_module. intros A B C.
  apply String.eqb_neq in A, B. rewrite A, B, C. reflexivity.
Qed.

Ltac start_unfold :=
  unfold Start, ds_bind, ds_ret, call_Create, call_SetReportWarnings, call_Read,
    call_SetArchitecture, call_WriteSymbolFileHeader, call_ReadSymbolData, call_Write,
    arch_ok, SetArchitecture; cbn beta iota zeta.

Ltac start_cases :=
  repeat (simpl;
    match goal with
    | |- context [split_module ?o] => destruct (split_module o) eqn:?
    | |- context [String.eqb ?x ?x] => rewrite String.eqb_refl
    | |- context [ds_Read ?h ?f] => destruct (ds_Read h f) eqn:?
    | |- context [arch ?o] => destruct (arch o) eqn:?
    | |- context [ds_SetArchitecture ?h ?a] => destruct (ds_SetArchitecture h a) eqn:?
    | |- context [header_only ?o] => destruct (header_only o) eqn:?
    | |- context [ds_WriteSymbolFileHeader ?h] => destruct (ds_WriteSymbolFileHeader h) eqn:?
    | |- context [ds_ReadSymbolData ?h] => destruct (ds_ReadSymbolData h) eqn:?
    | |- context [modules_match ?o ?m ?c] => destruct (modules_match o m c) eqn:?
    | |- context [ds_Write ?h ?m ?sd] => destruct (ds_Write h m sd) eqn:?
    end).

(** X10: Start returns true exactly when its last call on DumpSymbols is a
    successful write (WriteSymbolFileHeader or Write), and it makes at most
    one write: every failure before it ends Start with false. *)
Theorem Start_last_write (o : Options ArchInfo) :
  let (result, calls) := Start o [] in
  (result = true <-> exists pre e, calls = (pre ++ [e])%list /\ write_succeeded e = true) /\
  (length (filter is_write calls) <= 1)%nat.
Proof.
  start_unfold. start_cases; (split; [apply last_write_iff; reflexivity|simpl; lia]).
Qed.

(** X11: with -i (header only) Start never calls ReadSymbolData or Write. *)
Theorem Start_header_only (o : Options ArchInfo) (Hh : header_only o = true) :
  let (_, calls) := Start o [] in
  forallb (fun e => match e with EvReadSymbolData _ | EvWrite _ _ _ => false | _ => true end)
    calls = true.
Proof.
  start_unfold. start_cases; try congruence; reflexivity.
Qed.

(** X12: when the module is not split (no dSYM path, no source path, or no
    CFI), Start reads only the source path, once, and any module it writes is
    the one module ReadSymbolData gave, written with the symbol data the
    options select. *)
Theorem Start_single_file (o : Options ArchInfo)
    (Hsingle : dsymPath o = "" \/ srcPath o = "" \/ cfi o = false) :
  let (_, calls) := Start o [] in
  (exists ok, filter is_read calls = [EvRead (srcPath o) ok]) /\
  (forall m sd ok, In (EvWrite m sd ok) calls ->
     filter is_read_symbol_data calls = [EvReadSymbolData (Some m)] /\ sd = symbol_data_of o).
Proof.
  apply split_module_false in Hsingle.
  start_unfold. start_cases; try congruence;
    (split; [eexists; reflexivity|]);
    intros m' sd' ok' Hin; simpl in Hin;
    repeat destruct Hin as [Hin|Hin]; try discriminate; try contradiction;
    injection Hin; intros; subst; split; reflexivity.
Qed.

(** X13: for a split module (a dSYM path, a source path and CFI), a Write
    comes after reading the dSYM then the source file successfully and reading
    two modules, the dSYM module then the Mach-O module; the module written is
    the dSYM module with the Mach-O module's CFI copied into it, and the two
    agree on OS, architecture and identifier, and on name unless a module
    name was given. *)
Theorem Start_split_write (o : Options ArchInfo)
    (Hdsym : dsymPath o <> "") (Hsrc : srcPath o <> "") (Hcfi : cfi o = true) :
  let (_, calls) := Start o [] in
  forall w sd ok, In (EvWrite w sd ok) calls ->
  exists m cm,
    filter is_read calls = [EvRead (dsymPath o) true; EvRead (srcPath o) true] /\
    filter is_read_symbol_data calls = [EvReadSymbolData (Some m); EvReadSymbolData (Some cm)] /\
    w = CopyCFIDataBetweenModules m cm /\ sd = symbol_data_of o /\
    os m = os cm /\ architecture m = architecture cm /\ identifier m = identifier cm /\
    (module_name o <> "" \/ name m = name cm).
Proof.
  pose proof (split_module_true o Hdsym Hsrc Hcfi) as Hs.
  start_unfold. start_cases; try congruence;
    intros w sd ok Hin; simpl in Hin;
    repeat destruct Hin as [Hin|Hin]; try discriminate; try contradiction;
    injection Hin; intros; subst;
    match goal with E : modules_match _ _ _ = true |- _ => apply modules_match_spec in E end;
    do 2 eexists; (split; [reflexivity|]); (split; [reflexivity|]);
    (split; [reflexivity|]); (split; [reflexivity|]); assumption.
Qed.

End StartProofs.

(** X2 witness: the Mach-O entry at 0x2000 lies above the only dSYM entry,
    at 0x1000, and is copied. *)
Lemma entries_to_copy_edges_witness :
  In (mkCfiInit 0x2000 0x20 [] []) [mkCfiInit 0x1008 0x10 [] []; mkCfiInit 0x2000 0x20 [] []] /\
  In (mkCfiInit 0x2000 0x20 [] [])
    (entries_to_copy [mkCfiInit 0x1000 0x10 [] []]
       [mkCfiInit 0x1008 0x10 [] []; mkCfiInit 0x2000 0x20 [] []]).
Proof.
  assert (He : In (mkCfiInit 0x2000 0x20 [] [])
                 [mkCfiInit 0x1008 0x10 [] []; mkCfiInit 0x2000 0x20 [] []]).
  { simpl. right. left. reflexivity. }
  split; [exact He|].
  apply (proj1 (entries_to_copy_edges [mkCfiInit 0x1000 0x10 [] []]
                  [mkCfiInit 0x1008 0x10 [] []; mkCfiInit 0x2000 0x20 [] []] _ He)).
  intros t [<-|[]]. simpl. lia.
Defined.

(** X4 witness: the caller registers at 0x3d40, the six-register map, and
    that map with one more register. *)
Lemma VerifyRegisters_trans_witness :
  VerifyRegisters expected_caller_registers [(".cfa", 0x1001c); (".ra", 0xf6438648)] = true /\
  VerifyRegisters (expected_caller_registers ++ [("$eax", 0)])%list expected_caller_registers = true /\
  VerifyRegisters (expected_caller_registers ++ [("$eax", 0)])%list
    [(".cfa", 0x1001c); (".ra", 0xf6438648)] = true.
Proof.
  assert (H1 : VerifyRegisters expected_caller_registers
                 [(".cfa", 0x1001c); (".ra", 0xf6438648)] = true) by (vm_compute; reflexivity).
  assert (H2 : VerifyRegisters (expected_caller_registers ++ [("$eax", 0)])%list
                 expected_caller_registers = true) by (vm_compute; reflexivity).
  split; [exact H1|split; [exact H2|]].
  exact (VerifyRegisters_trans _ _ _ H1 H2).
Defined.

(** X5 witness: the six-register map of the test has distinct keys. *)
Lemma VerifyRegisters_refl_witness :
  NoDup (map fst expected_caller_registers) /\
  VerifyRegisters expected_caller_registers expected_caller_registers = true.
Proof.
  assert (Hnd : NoDup (map fst expected_caller_registers)).
  { simpl. repeat constructor; simpl; intros Hin; repeat destruct Hin as [Hin|Hin];
      try discriminate; contradiction. }
  split; [exact Hnd|].
  apply (proj2 (VerifyRegisters_refl expected_caller_registers Hnd)).
  split; simpl; discriminate.
Defined.

(** X7 witness: [dump_syms -cd -w foo]. *)
Lemma SetupOptions_flags_witness :
  @SetupOptions string example_arch_utilities ["dump_syms"; "-cd"; "-w"; "foo"] =
  SetupOk (mkOptions "foo" "" None false false true true false "" false true).
Proof.
  assert (Hg : Forall (fun g => g <> "" /\
      Forall (fun c => In c ["i"; "w"; "c"; "r"; "d"; "m"; "x"]%char) (list_ascii_of_string g))
      ["cd"; "w"]).
  { repeat constructor; try discriminate; simpl; tauto. }
  assert (Ho : Forall (fun a => String.get 0 a <> Some "-"%char) ["foo"]).
  { repeat constructor. simpl. discriminate. }
  exact (@SetupOptions_flags string example_arch_utilities "dump_syms" ["cd"; "w"] ["foo"] Hg Ho).
Defined.

(** X8 witness: [dump_syms -w -h foo]. *)
Lemma SetupOptions_usage_exit_witness :
  @main string ExampleModule example_arch_utilities example_module_interface example_dump_symbols
    ["dump_syms"; "-w"; "-h"; "foo"] = (0, []).
Proof.
  assert (Hg : Forall (fun g => g <> "" /\
      Forall (fun c => In c ["i"; "w"; "c"; "r"; "d"; "m"; "x"]%char) (list_ascii_of_string g))
      ["w"]).
  { repeat constructor; try discriminate; simpl; tauto. }
  assert (Hc : ~ In "h"%char ["i"; "w"; "a"; "g"; "c"; "r"; "d"; "m"; "n"; "x"]%char).
  { simpl. intros Hin. repeat destruct Hin as [Hin|Hin]; try discriminate; contradiction. }
  assert (Hn : String "h" "" <> "-") by discriminate.
  exact (proj1 (proj2 (@SetupOptions_usage_exit string ExampleModule example_arch_utilities
    example_module_interface example_dump_symbols "dump_syms" ["w"] "h" "" ["foo"] Hg Hc Hn))).
Defined.

(** X9 witness: [dump_syms -a sparc foo]. *)
Lemma SetupOptions_invalid_arch_witness :
  @SetupOptions string example_arch_utilities ["dump_syms"; "-a"; "sparc"; "foo"] = SetupExit 1.
Proof.
  assert (Hn : @GetArchInfoFromName string example_arch_utilities "sparc" = None) by reflexivity.
  exact (proj1 (@SetupOptions_invalid_arch string example_arch_utilities "dump_syms" "sparc"
    [] ["foo"] (Forall_nil _) Hn)).
Defined.

(** X11 witness: [dump_syms -i foo]. *)
Lemma Start_header_only_witness :
  let (_, calls) := example_Start (mkOptions "foo" "" None true true true false false "" false false) in
  forallb (fun e => match e with EvReadSymbolData _ | EvWrite _ _ _ => false | _ => true end)
    calls = true.
Proof.
  exact (@Start_header_only string ExampleModule example_module_interface example_dump_symbols
    (mkOptions "foo" "" None true true true false false "" false false)
    eq_refl).
Defined.

(** X12 witness: [dump_syms -a x86_64 foo], with no dSYM path. *)
Lemma Start_single_file_witness :
  let (_, calls) := example_Start (mkOptions "foo" "" (Some "x86_64") false true true false false "" false false) in
  (exists ok, filter is_read calls = [EvRead "foo" ok]) /\
  (forall m sd ok, In (EvWrite m sd ok) calls ->
     filter is_read_symbol_data calls = [EvReadSymbolData (Some m)] /\
     sd = mkSymbolData false true true).
Proof.
  exact (@Start_single_file string ExampleModule example_module_interface example_dump_symbols
    (mkOptions "foo" "" (Some "x86_64") false true true false false "" false false)
    (or_introl eq_refl)).
Defined.

(** X13 witness: [dump_syms -g foo.dSYM foo], a split module. *)
Lemma Start_split_write_witness :
  let (_, calls) := example_Start (mkOptions "foo" "foo.dSYM" None false true true false false "" false false) in
  forall w sd ok, In (EvWrite w sd ok) calls ->
  exists m cm,
    filter is_read calls = [EvRead "foo.dSYM" true; EvRead "foo" true] /\
    filter is_read_symbol_data calls = [EvReadSymbolData (Some m); EvReadSymbolData (Some cm)] /\
    w = @CopyCFIDataBetweenModules _ example_module_interface m cm /\ sd = mkSymbolData false true true /\
    em_os m = em_os cm /\ em_architecture m = em_architecture cm /\
    em_identifier m = em_identifier cm /\ ("" <> "" \/ em_name m = em_name cm).
Proof.
  assert (Hd : dsymPath (mkOptions "foo" "foo.dSYM" (@None string) false true true false false "" false false) <> "")
    by discriminate.
  assert (Hs : srcPath (mkOptions "foo" "foo.dSYM" (@None string) false true true false false "" false false) <> "")
    by discriminate.
  exact (@Start_split_write string ExampleModule example_module_interface example_dump_symbols
    _ Hd Hs eq_refl).
Defined.
